(** * Query-parameter synchronisation hooks ([registry/hooks/use-query-state.ts])

    A shallow embedding of [useQueryString], [useQueryStrings] and their
    helpers [updateQueryState], [createSearchParams] and
    [createSearchParamsWithMany].

    - A [URLSearchParams] object is an ordered list of name/value pairs
      (names may repeat); objects live in a store and are handled through
      references, because [updateQueryState] mutates its argument in place.
    - The hook instance owns the ref cell [isMounted]; [router.replace] is
      recorded in a log of the locations it was called with.
    - A Zod schema is known only through [safeParse]. *)

From stdpp Require Import base strings list gmap.

Open Scope string_scope.
Open Scope list_scope.

(** ** JavaScript values *)

(** Truthiness of a string: every string but the empty one. *)
Definition truthy (s : string) : bool := negb (String.eqb s "").

(** Truthiness of [string | null | undefined]. *)
Definition truthy_maybe (v : option string) : bool :=
  match v with
  | Some s => truthy s
  | None => false
  end.

(** [a !== b] for [a : string | null] and [b : string | undefined]:
    [null] and [undefined] are different values. *)
Definition strict_neq (a b : option string) : bool :=
  match a, b with
  | Some x, Some y => negb (String.eqb x y)
  | _, _ => true
  end.

(** A value passed where the platform expects a string is converted. *)
Definition USVString (v : option string) : string := default "undefined" v.

(** [Object.fromEntries(entries)]: a later entry of a key replaces an
    earlier one. *)
Definition Object_fromEntries {A} (entries : list (string * A)) : gmap string A :=
  foldl (fun acc e => <[e.1 := e.2]> acc) ∅ entries.

(** ** The list of pairs behind a [URLSearchParams] object *)

Module URLSearchParams.

Definition t : Type := list (string * string).

Definition has (l : t) (name : string) : bool :=
  existsb (fun p => String.eqb p.1 name) l.

Fixpoint get (l : t) (name : string) : option string :=
  match l with
  | [] => None
  | (k, v) :: rest => if String.eqb k name then Some v else get rest name
  end.

Definition delete (l : t) (name : string) : t :=
  List.filter (fun p => negb (String.eqb p.1 name)) l.

(** The first pair named [name] takes the value, the other ones go; with no
    such pair a new one is appended. *)
Fixpoint set (l : t) (name value : string) : t :=
  match l with
  | [] => [(name, value)]
  | (k, v) :: rest =>
      if String.eqb k name then (k, value) :: delete rest name
      else (k, v) :: set rest name value
  end.

End URLSearchParams.

(** ** Options *)

Inductive SafeParseReturnType : Type :=
  | ParseSuccess (data : string)
  | ParseFailure.

Record ZodType : Type := { safeParse : string -> SafeParseReturnType }.

Inductive ParseErrorPolicy : Type := Fallback | Remove.

Global Instance ParseErrorPolicy_eq_dec : EqDecision ParseErrorPolicy.
Proof. solve_decision. Defined.

(** A property of an object literal typed by [Partial<...>]: it may be
    missing, or be there holding [undefined], or hold a value.  Reading it
    gives [undefined] in the first two cases; [Object.keys] counts the last
    two. *)
Inductive Property (A : Type) : Type :=
  | Absent
  | Undefined
  | Defined (a : A).
Arguments Absent {A}.
Arguments Undefined {A}.
Arguments Defined {A} a.

Definition read {A} (p : Property A) : option A :=
  match p with
  | Defined a => Some a
  | _ => None
  end.

Definition own {A} (p : Property A) : nat :=
  match p with
  | Absent => 0
  | _ => 1
  end.

Record UseQueryStateOptions : Type := {
  defaultValue : Property string;
  schema : Property ZodType;
  onParseError : Property ParseErrorPolicy
}.

Definition Object_keys_length (o : UseQueryStateOptions) : nat :=
  own (defaultValue o) + own (schema o) + own (onParseError o).

(** [!options || Object.keys(options).length === 0] *)
Definition unconfigured (options : option UseQueryStateOptions) : bool :=
  match options with
  | None => true
  | Some o => Nat.eqb (Object_keys_length o) 0
  end.

(** [!!options.defaultValue] and [!!options.schema] *)
Definition hasDefaultValue (o : UseQueryStateOptions) : bool :=
  truthy_maybe (read (defaultValue o)).

Definition hasSchema (o : UseQueryStateOptions) : bool :=
  match read (schema o) with
  | Some _ => true
  | None => false
  end.

(** ** The world the hooks run in *)

Definition ref : Type := nat.

(** What [router.replace] was called with: the template string
    [`${pathname}?${params}`], kept as its two parts, the second one being
    the pairs the object held when it was converted to a string. *)
Record Href : Type := { pathname : string; search : URLSearchParams.t }.

Record World : Type := {
  heap : gmap ref (list (string * string));
  isMounted : bool;
  replaced : list Href
}.

Definition with_heap (h : gmap ref (list (string * string))) (w : World) : World :=
  {| heap := h; isMounted := isMounted w; replaced := replaced w |}.

Definition with_isMounted (b : bool) (w : World) : World :=
  {| heap := heap w; isMounted := b; replaced := replaced w |}.

Definition with_replaced (r : list Href) (w : World) : World :=
  {| heap := heap w; isMounted := isMounted w; replaced := r |}.

(** The pairs a reference holds. *)
Definition deref (w : World) (r : ref) : URLSearchParams.t :=
  default [] (heap w !! r).

(** *** A state monad over the world *)

Definition M (A : Type) : Type := World -> A * World.

Definition ret {A} (a : A) : M A := fun w => (a, w).

Definition bind {A B} (m : M A) (k : A -> M B) : M B :=
  fun w => let p := m w in k p.1 p.2.

Declare Scope hook_scope.
Delimit Scope hook_scope with hook.
Notation "x <- m ;; k" := (bind m (fun x => k))
  (at level 100, m at next level, right associativity) : hook_scope.
Notation "m ;; k" := (bind m (fun _ => k))
  (at level 100, right associativity) : hook_scope.
Open Scope hook_scope.

(** State reached, and value returned, by running [m] from [w]. *)
Definition exec {A} (m : M A) (w : World) : World := (m w).2.
Definition eval {A} (m : M A) (w : World) : A := (m w).1.

(** [for (let i = 0; i < xs.length; i++) body(xs[i])] *)
Fixpoint for_each {A} (xs : list A) (body : A -> M unit) : M unit :=
  match xs with
  | [] => ret tt
  | x :: rest => body x ;; for_each rest body
  end.

(** *** Methods of a [URLSearchParams] object *)

Definition sp_has (r : ref) (name : string) : M bool :=
  fun w => (URLSearchParams.has (deref w r) name, w).

Definition sp_get (r : ref) (name : string) : M (option string) :=
  fun w => (URLSearchParams.get (deref w r) name, w).

Definition sp_set (r : ref) (name value : string) : M unit :=
  fun w => (tt, with_heap (alter (fun l => URLSearchParams.set l name value) r (heap w)) w).

Definition sp_delete (r : ref) (name : string) : M unit :=
  fun w => (tt, with_heap (alter (fun l => URLSearchParams.delete l name) r (heap w)) w).

Definition sp_toString (r : ref) : M URLSearchParams.t :=
  fun w => (deref w r, w).

(** [new URLSearchParams(init)]: a new object holding a copy of the pairs. *)
Definition sp_new (init : ref) : M ref :=
  fun w => let r := fresh (dom (heap w)) in
           (r, with_heap (<[r := deref w init]> (heap w)) w).

(** *** The ref cell and the router *)

Definition get_isMounted : M bool := fun w => (isMounted w, w).

Definition set_isMounted (b : bool) : M unit := fun w => (tt, with_isMounted b w).

Definition router_replace (href : Href) : M unit :=
  fun w => (tt, with_replaced (replaced w ++ [href]) w).

(** ** [updateQueryState] *)

(** [const { defaultValue, schema, onParseError = "fallback" } = options] *)
Definition resolved_onParseError (o : UseQueryStateOptions) : ParseErrorPolicy :=
  default Fallback (read (onParseError o)).

Definition shouldFallback (o : UseQueryStateOptions) : bool :=
  bool_decide (resolved_onParseError o = Fallback) && truthy_maybe (read (defaultValue o)).

Definition shouldRemove (o : UseQueryStateOptions) : bool :=
  bool_decide (resolved_onParseError o = Remove) || negb (truthy_maybe (read (defaultValue o))).

(** The three [if]s that close the function, reached when there is no
    schema, or when the schema block ends without returning. *)
Definition updateQueryState_tail (key value : string) (searchParams : ref)
    (o : UseQueryStateOptions) : M unit :=
  if negb (truthy value) && shouldFallback o then
    sp_set searchParams key (USVString (read (defaultValue o)))
  else if negb (truthy value) && shouldRemove o then
    sp_delete searchParams key
  else if truthy value then
    sp_set searchParams key value
  else
    ret tt.

Definition updateQueryState (key value : string) (searchParams : ref)
    (options : option UseQueryStateOptions) : M unit :=
  match options with
  | None =>
      if truthy value then sp_set searchParams key value
      else sp_delete searchParams key
  | Some o =>
      match read (schema o) with
      | Some s =>
          match safeParse s value with
          | ParseSuccess data => sp_set searchParams key data
          | ParseFailure =>
              if shouldFallback o then
                sp_set searchParams key (USVString (read (defaultValue o)))
              else if shouldRemove o then
                sp_delete searchParams key
              else
                updateQueryState_tail key value searchParams o
          end
      | None => updateQueryState_tail key value searchParams o
      end
  end.

(** ** The params builders *)

Definition createSearchParamsWithMany (updates : list (string * string))
    (searchParams : ref) (options : option (gmap string UseQueryStateOptions)) : M ref :=
  urlSearchParams <- sp_new searchParams ;;
  for_each updates (fun u =>
    updateQueryState u.1 u.2 urlSearchParams (options ≫= (.!! u.1))) ;;
  ret urlSearchParams.

Definition createSearchParams (update : string * string)
    (searchParams : ref) (options : option UseQueryStateOptions) : M ref :=
  urlSearchParams <- sp_new searchParams ;;
  updateQueryState update.1 update.2 urlSearchParams options ;;
  ret urlSearchParams.

(** ** [useQueryString] *)

Module UseQueryString.

Definition setQueryString (key : string) (options : option UseQueryStateOptions)
    (pathname : string) (searchParams : ref) (value : string) : M unit :=
  params <- createSearchParams (key, value) searchParams options ;;
  query <- sp_toString params ;;
  router_replace {| pathname := pathname; search := query |}.

(** The condition of the second [if] of the effect. *)
Definition outOfCompliance (mounted hasParam : bool) (paramValue : option string)
    (o : UseQueryStateOptions) : bool :=
  (negb mounted && hasDefaultValue o && strict_neq paramValue (read (defaultValue o)))
  || (negb mounted && negb (hasDefaultValue o) && hasSchema o)
  || (hasParam && negb (truthy_maybe paramValue))
  || (negb hasParam && hasDefaultValue o).

(** The function handed to [useEffect]. *)
Definition effect (key : string) (options : option UseQueryStateOptions)
    (pathname : string) (searchParams : ref) : M unit :=
  hasParam <- sp_has searchParams key ;;
  paramValue <- sp_get searchParams key ;;
  match options with
  | Some o =>
      if Nat.eqb (Object_keys_length o) 0 then
        if hasParam && negb (truthy_maybe paramValue) then
          setQueryString key options pathname searchParams ""
        else ret tt
      else
        mounted <- get_isMounted ;;
        if outOfCompliance mounted hasParam paramValue o then
          (mounted' <- get_isMounted ;;
           if negb mounted' then set_isMounted true else ret tt) ;;
          setQueryString key options pathname searchParams (default "" paramValue)
        else ret tt
  | None =>
      if hasParam && negb (truthy_maybe paramValue) then
        setQueryString key options pathname searchParams ""
      else ret tt
  end.

(** What one render returns first: [searchParams.get(key)]. *)
Definition queryString (key : string) (searchParams : ref) : M (option string) :=
  sp_get searchParams key.

End UseQueryString.

(** ** [useQueryStrings] *)

Module UseQueryStrings.

Definition updateSearchParams (options : option (gmap string UseQueryStateOptions))
    (pathname : string) (searchParams : ref) (updates : list (string * string)) : M unit :=
  if Nat.eqb (length updates) 0 then ret tt
  else
    params <- createSearchParamsWithMany updates searchParams options ;;
    query <- sp_toString params ;;
    router_replace {| pathname := pathname; search := query |}.

(** The body of the loop of [getSearchParamsUpdates] for one key; the result
    is [paramUpdates] after the iteration. *)
Definition getSearchParamsUpdates_step (options : option (gmap string UseQueryStateOptions))
    (searchParams : ref) (paramUpdates : list (string * string)) (key : string)
    : M (list (string * string)) :=
  hasParam <- sp_has searchParams key ;;
  paramValue <- sp_get searchParams key ;;
  let paramOptions := options ≫= (.!! key) in
  match paramOptions with
  | Some o =>
      if Nat.eqb (Object_keys_length o) 0 then
        if hasParam && negb (truthy_maybe paramValue) then ret (paramUpdates ++ [(key, "")])
        else ret paramUpdates
      else
        mounted <- get_isMounted ;;
        if UseQueryString.outOfCompliance mounted hasParam paramValue o then
          ret (paramUpdates ++ [(key, default "" paramValue)])
        else ret paramUpdates
  | None =>
      if hasParam && negb (truthy_maybe paramValue) then ret (paramUpdates ++ [(key, "")])
      else ret paramUpdates
  end.

Fixpoint getSearchParamsUpdates_loop (options : option (gmap string UseQueryStateOptions))
    (searchParams : ref) (keys : list string) (paramUpdates : list (string * string))
    : M (list (string * string)) :=
  match keys with
  | [] => ret paramUpdates
  | key :: rest =>
      paramUpdates' <- getSearchParamsUpdates_step options searchParams paramUpdates key ;;
      getSearchParamsUpdates_loop options searchParams rest paramUpdates'
  end.

Definition getSearchParamsUpdates (keys : list string)
    (options : option (gmap string UseQueryStateOptions)) (searchParams : ref)
    : M (list (string * string)) :=
  getSearchParamsUpdates_loop options searchParams keys [].

(** The function handed to [useEffect]. *)
Definition effect (keys : list string) (options : option (gmap string UseQueryStateOptions))
    (pathname : string) (searchParams : ref) : M unit :=
  updates <- getSearchParamsUpdates keys options searchParams ;;
  (mounted <- get_isMounted ;;
   if negb mounted then set_isMounted true else ret tt) ;;
  if Nat.ltb 0 (length updates) then
    updateSearchParams options pathname searchParams updates
  else ret tt.

Definition setQueryString (options : option (gmap string UseQueryStateOptions))
    (pathname : string) (searchParams : ref) (key value : string) : M unit :=
  updateSearchParams options pathname searchParams [(key, value)].

(** What one render returns first:
    [Object.fromEntries(keys.map((key) => [key, searchParams.get(key)]))];
    a key that is [null] is there, holding [None]. *)
Definition queryStrings (keys : list string) (searchParams : ref)
    : M (gmap string (option string)) :=
  entries <- (fun w => (map (fun key => (key, URLSearchParams.get (deref w searchParams) key)) keys, w)) ;;
  ret (Object_fromEntries entries).

End UseQueryStrings.

(** ** The same steps as functions on the list of pairs

    These are not in the source: they name what the code above does to the
    pairs of one object, and each is tied to the code by a lemma
    ([updateQueryState_run], [getSearchParamsUpdates_run], ...). *)

(** The pairs of the object after [updateQueryState], from its pairs before. *)
Definition updated_tail (key value : string) (o : UseQueryStateOptions)
    (l : URLSearchParams.t) : URLSearchParams.t :=
  if negb (truthy value) && shouldFallback o then
    URLSearchParams.set l key (USVString (read (defaultValue o)))
  else if negb (truthy value) && shouldRemove o then
    URLSearchParams.delete l key
  else if truthy value then
    URLSearchParams.set l key value
  else l.

Definition updated (key value : string) (options : option UseQueryStateOptions)
    (l : URLSearchParams.t) : URLSearchParams.t :=
  match options with
  | None =>
      if truthy value then URLSearchParams.set l key value
      else URLSearchParams.delete l key
  | Some o =>
      match read (schema o) with
      | Some s =>
          match safeParse s value with
          | ParseSuccess data => URLSearchParams.set l key data
          | ParseFailure =>
              if shouldFallback o then
                URLSearchParams.set l key (USVString (read (defaultValue o)))
              else if shouldRemove o then URLSearchParams.delete l key
              else updated_tail key value o l
          end
      | None => updated_tail key value o l
      end
  end.

(** The pairs after a whole batch. *)
Definition updated_many (options : option (gmap string UseQueryStateOptions))
    (updates : list (string * string)) (l : URLSearchParams.t) : URLSearchParams.t :=
  foldl (fun acc u => updated u.1 u.2 (options ≫= (.!! u.1)) acc) l updates.

(** What one iteration of the loop of [getSearchParamsUpdates] pushes. *)
Definition correction (options : option (gmap string UseQueryStateOptions))
    (mounted : bool) (l : URLSearchParams.t) (key : string) : option (string * string) :=
  let hasParam := URLSearchParams.has l key in
  let paramValue := URLSearchParams.get l key in
  match options ≫= (.!! key) with
  | Some o =>
      if Nat.eqb (Object_keys_length o) 0 then
        if hasParam && negb (truthy_maybe paramValue) then Some (key, "") else None
      else if UseQueryString.outOfCompliance mounted hasParam paramValue o then
        Some (key, default "" paramValue)
      else None
  | None =>
      if hasParam && negb (truthy_maybe paramValue) then Some (key, "") else None
  end.

Definition corrections (options : option (gmap string UseQueryStateOptions))
    (mounted : bool) (l : URLSearchParams.t) (keys : list string) : list (string * string) :=
  omap (correction options mounted l) keys.

(** Where the router is after the calls [calls], starting from [l]. *)
Definition navigate (l : URLSearchParams.t) (calls : list Href) : URLSearchParams.t :=
  foldl (fun _ h => search h) l calls.

(** The calls of [router.replace] made between two worlds. *)
Definition new_calls (before after : World) : list Href :=
  drop (length (replaced before)) (replaced after).

(** A schema that never succeeds with the empty string. *)
Definition never_empty (s : ZodType) : Prop :=
  forall v, safeParse s v <> ParseSuccess "".

(** The options under which one correction of a key leaves nothing more to
    correct for it: the schema never hands back the empty string, and a
    default value comes with the policy [fallback]. *)
Definition settles (options : option UseQueryStateOptions) : Prop :=
  match options with
  | None => True
  | Some o =>
      (forall s, read (schema o) = Some s -> never_empty s) /\
      (hasDefaultValue o = true -> resolved_onParseError o = Fallback)
  end.


(** Every object of [w] is in [w'] with the same pairs. *)
Definition preserves_objects (w w' : World) : Prop :=
  forall r, is_Some (heap w !! r) -> heap w' !! r = heap w !! r.

(** The options of [useQueryString] as the options of [useQueryStrings] for
    the one key. *)
Definition for_key (key : string) (options : option UseQueryStateOptions)
    : option (gmap string UseQueryStateOptions) :=
  (fun o => {[ key := o ]}) <$> options.

(** ** Class names ([cx]) *)

(** [string | Record<string, boolean> | boolean | null | undefined]; a record
    is given by its entries in the order [Object.entries] lists them. *)
Inductive ClassValue : Type :=
  | ClassString (s : string)
  | ClassRecord (entries : list (string * bool))
  | ClassBoolean (b : bool)
  | ClassNull
  | ClassUndefined.

(** [String.prototype.trimEnd]: the white space at the end goes.  Which
    characters are white space is the platform's table, [isWhiteSpace]. *)
Fixpoint trimEnd (isWhiteSpace : Ascii.ascii -> bool) (s : string) : string :=
  match s with
  | EmptyString => EmptyString
  | String c rest =>
      match trimEnd isWhiteSpace rest with
      | EmptyString => if isWhiteSpace c then EmptyString else String c EmptyString
      | trimmed => String c trimmed
      end
  end.

(** The inner loop of [cx], over the entries of a record. *)
Definition cx_entries (entries : list (string * bool)) (result : string) : string :=
  foldl (fun (res : string) (e : string * bool) =>
           if e.2 then res +:+ e.1 +:+ " " else res) result entries.

(** One turn of the outer loop of [cx]. *)
Definition cx_step (result : string) (input : ClassValue) : string :=
  match input with
  | ClassString s => if truthy s then result +:+ s +:+ " " else result
  | ClassRecord entries => cx_entries entries result
  | ClassBoolean _ => result
  | ClassNull => result
  | ClassUndefined => result
  end.

Definition cx (isWhiteSpace : Ascii.ascii -> bool) (inputs : list ClassValue) : string :=
  trimEnd isWhiteSpace (foldl cx_step "" inputs).

(** The names an input stands for: a non-empty string for itself, a record
    for its keys with a true value. *)
Definition class_names (input : ClassValue) : list string :=
  match input with
  | ClassString s => if truthy s then [s] else []
  | ClassRecord entries => (List.filter (fun e => e.2) entries).*1
  | _ => []
  end.

(** A string that is not empty and does not end in white space. *)
Definition ends_visibly (isWhiteSpace : Ascii.ascii -> bool) (s : string) : Prop :=
  exists body c, s = body +:+ String c EmptyString /\ isWhiteSpace c = false.

(** White space among the characters up to U+00FF. *)
Definition latin1_whitespace (c : Ascii.ascii) : bool :=
  existsb (N.eqb (Ascii.N_of_ascii c)) [9; 10; 11; 12; 13; 32; 160]%N.

(** ** Sample schemas and worlds, for the examples below *)

(** [z.enum([...])] *)
Definition z_enum (members : list string) : ZodType :=
  {| safeParse := fun v =>
       if existsb (String.eqb v) members then ParseSuccess v else ParseFailure |}.

(** [z.string()] *)
Definition z_string : ZodType := {| safeParse := fun v => ParseSuccess v |}.

(** [z.string().transform((s) => "v" + s)] *)
Definition z_versioned : ZodType :=
  {| safeParse := fun v => ParseSuccess (String.append "v" v) |}.

(** A world with one object, at reference [0], holding the pairs of the
    current location; the hook is not mounted and nothing was replaced. *)
Definition at_location (l : URLSearchParams.t) : World :=
  {| heap := {[ 0 := l ]}; isMounted := false; replaced := [] |}.

(** ** Lemmas on the list of pairs *)

Lemma eqb_refl' (s : string) : String.eqb s s = true.
Proof. apply String.eqb_refl. Qed.

Lemma eqb_ne (a b : string) : a <> b -> String.eqb a b = false.
Proof. intros H. apply String.eqb_neq. exact H. Qed.

Lemma truthy_true (s : string) : truthy s = true <-> s <> "".
Proof.
  unfold truthy. rewrite negb_true_iff. apply String.eqb_neq.
Qed.

Lemma truthy_false (s : string) : truthy s = false <-> s = "".
Proof.
  unfold truthy. rewrite negb_false_iff. apply String.eqb_eq.
Qed.

Lemma has_get (l : URLSearchParams.t) (name : string) :
  URLSearchParams.has l name =
  match URLSearchParams.get l name with Some _ => true | None => false end.
Proof.
  induction l as [|[k v] l IH]; simpl; [reflexivity|].
  destruct (String.eqb k name); simpl; [reflexivity | exact IH].
Qed.

Lemma get_delete_eq (l : URLSearchParams.t) (name : string) :
  URLSearchParams.get (URLSearchParams.delete l name) name = None.
Proof.
  induction l as [|[k v] l IH]; simpl; [reflexivity|].
  destruct (String.eqb k name) eqn:E; simpl; [exact IH|].
  rewrite E. exact IH.
Qed.

Lemma get_delete_ne (l : URLSearchParams.t) (name other : string) :
  name <> other ->
  URLSearchParams.get (URLSearchParams.delete l name) other = URLSearchParams.get l other.
Proof.
  intros Hne. induction l as [|[k v] l IH]; simpl; [reflexivity|].
  destruct (String.eqb k name) eqn:E; simpl.
  - apply String.eqb_eq in E. subst k. rewrite (eqb_ne _ _ Hne). exact IH.
  - destruct (String.eqb k other); [reflexivity | exact IH].
Qed.

Lemma get_set_eq (l : URLSearchParams.t) (name value : string) :
  URLSearchParams.get (URLSearchParams.set l name value) name = Some value.
Proof.
  induction l as [|[k v] l IH]; simpl.
  - rewrite eqb_refl'. reflexivity.
  - destruct (String.eqb k name) eqn:E; simpl; rewrite E; [reflexivity | exact IH].
Qed.

Lemma get_set_ne (l : URLSearchParams.t) (name other value : string) :
  name <> other ->
  URLSearchParams.get (URLSearchParams.set l name value) other = URLSearchParams.get l other.
Proof.
  intros Hne. induction l as [|[k v] l IH]; simpl.
  - rewrite (eqb_ne _ _ Hne). reflexivity.
  - destruct (String.eqb k name) eqn:E; simpl.
    + apply String.eqb_eq in E. subst k. rewrite (eqb_ne _ _ Hne).
      apply get_delete_ne. exact Hne.
    + destruct (String.eqb k other); [reflexivity | exact IH].
Qed.

Lemma has_false_get (l : URLSearchParams.t) (name : string) :
  URLSearchParams.has l name = false <-> URLSearchParams.get l name = None.
Proof.
  rewrite has_get. destruct (URLSearchParams.get l name); split; intros H;
    try discriminate; reflexivity.
Qed.

(** ** Running the code *)

Lemma with_heap_same (w : World) : with_heap (heap w) w = w.
Proof. destruct w; reflexivity. Qed.

Lemma with_isMounted_same (w : World) : with_isMounted (isMounted w) w = w.
Proof. destruct w; reflexivity. Qed.

Lemma deref_alter_eq (f : URLSearchParams.t -> URLSearchParams.t) (r : ref) (w : World) :
  is_Some (heap w !! r) ->
  deref (with_heap (alter f r (heap w)) w) r = f (deref w r).
Proof.
  intros [l Hl]. unfold deref. simpl. rewrite lookup_alter_eq, Hl. reflexivity.
Qed.

Lemma updateQueryState_tail_run (key value : string) (r : ref)
    (o : UseQueryStateOptions) (w : World) :
  updateQueryState_tail key value r o w =
  (tt, with_heap (alter (updated_tail key value o) r (heap w)) w).
Proof.
  unfold updateQueryState_tail, updated_tail.
  destruct (negb (truthy value) && shouldFallback o); [reflexivity|].
  destruct (negb (truthy value) && shouldRemove o); [reflexivity|].
  destruct (truthy value); [reflexivity|].
  unfold ret. rewrite alter_id by (intros; reflexivity).
  rewrite with_heap_same. reflexivity.
Qed.

(** [updateQueryState] changes the pairs of the object it is given, by
    [updated], and nothing else. *)
Lemma updateQueryState_run (key value : string) (r : ref)
    (options : option UseQueryStateOptions) (w : World) :
  updateQueryState key value r options w =
  (tt, with_heap (alter (updated key value options) r (heap w)) w).
Proof.
  unfold updateQueryState, updated. destruct options as [o|].
  - destruct (read (schema o)) as [s|].
    + destruct (safeParse s value); [reflexivity|].
      destruct (shouldFallback o); [reflexivity|].
      destruct (shouldRemove o); [reflexivity|].
      apply updateQueryState_tail_run.
    + apply updateQueryState_tail_run.
  - destruct (truthy value); reflexivity.
Qed.

Lemma for_each_updateQueryState_run (options : option (gmap string UseQueryStateOptions))
    (r : ref) (updates : list (string * string)) (w : World) :
  for_each updates
    (fun u => updateQueryState u.1 u.2 r (options ≫= (.!! u.1))) w =
  (tt, with_heap (alter (updated_many options updates) r (heap w)) w).
Proof.
  revert w. induction updates as [|u updates IH]; intros w; simpl.
  - unfold ret, updated_many. simpl. rewrite alter_id by (intros; reflexivity).
    rewrite with_heap_same. reflexivity.
  - unfold bind. rewrite updateQueryState_run. simpl. rewrite IH. simpl.
    unfold with_heap. simpl. rewrite alter_alter_eq. reflexivity.
Qed.

Lemma createSearchParamsWithMany_run (updates : list (string * string)) (sp : ref)
    (options : option (gmap string UseQueryStateOptions)) (w : World) :
  createSearchParamsWithMany updates sp options w =
  (fresh (dom (heap w)),
   with_heap (<[fresh (dom (heap w)) := updated_many options updates (deref w sp)]> (heap w)) w).
Proof.
  unfold createSearchParamsWithMany, bind, sp_new, ret. cbn [fst snd].
  rewrite for_each_updateQueryState_run. cbn [fst snd].
  unfold with_heap. cbn [heap isMounted replaced].
  rewrite alter_insert_eq. reflexivity.
Qed.

Lemma createSearchParams_run (update : string * string) (sp : ref)
    (options : option UseQueryStateOptions) (w : World) :
  createSearchParams update sp options w =
  (fresh (dom (heap w)),
   with_heap (<[fresh (dom (heap w)) := updated update.1 update.2 options (deref w sp)]> (heap w)) w).
Proof.
  unfold createSearchParams, bind, sp_new, ret. cbn [fst snd].
  rewrite updateQueryState_run. cbn [fst snd].
  unfold with_heap. cbn [heap isMounted replaced].
  rewrite alter_insert_eq. reflexivity.
Qed.

Lemma getSearchParamsUpdates_step_run (options : option (gmap string UseQueryStateOptions))
    (sp : ref) (acc : list (string * string)) (key : string) (w : World) :
  UseQueryStrings.getSearchParamsUpdates_step options sp acc key w =
  (acc ++ option_list (correction options (isMounted w) (deref w sp) key), w).
Proof.
  unfold UseQueryStrings.getSearchParamsUpdates_step, correction, bind, ret,
    sp_has, sp_get, get_isMounted.
  cbn [fst snd].
  destruct (options ≫= (.!! key)) as [o|].
  - destruct (Nat.eqb (Object_keys_length o) 0).
    + destruct (URLSearchParams.has (deref w sp) key
                && negb (truthy_maybe (URLSearchParams.get (deref w sp) key)));
        simpl; rewrite ?app_nil_r; reflexivity.
    + cbn [fst snd].
      destruct (UseQueryString.outOfCompliance _ _ _ o);
        simpl; rewrite ?app_nil_r; reflexivity.
  - destruct (URLSearchParams.has (deref w sp) key
              && negb (truthy_maybe (URLSearchParams.get (deref w sp) key)));
      simpl; rewrite ?app_nil_r; reflexivity.
Qed.

Lemma getSearchParamsUpdates_loop_run (options : option (gmap string UseQueryStateOptions))
    (sp : ref) (keys : list string) (acc : list (string * string)) (w : World) :
  UseQueryStrings.getSearchParamsUpdates_loop options sp keys acc w =
  (acc ++ corrections options (isMounted w) (deref w sp) keys, w).
Proof.
  revert acc. induction keys as [|key keys IH]; intros acc; simpl.
  - unfold ret. rewrite app_nil_r. reflexivity.
  - unfold bind. rewrite getSearchParamsUpdates_step_run. cbn [fst snd].
    rewrite IH. unfold corrections. simpl.
    destruct (correction options (isMounted w) (deref w sp) key); simpl.
    + rewrite <- app_assoc. reflexivity.
    + rewrite app_nil_r. reflexivity.
Qed.

(** [getSearchParamsUpdates] reads the world and leaves it as it is. *)
Lemma getSearchParamsUpdates_run (keys : list string)
    (options : option (gmap string UseQueryStateOptions)) (sp : ref) (w : World) :
  UseQueryStrings.getSearchParamsUpdates keys options sp w =
  (corrections options (isMounted w) (deref w sp) keys, w).
Proof.
  unfold UseQueryStrings.getSearchParamsUpdates.
  rewrite getSearchParamsUpdates_loop_run. reflexivity.
Qed.

Lemma deref_fresh_insert (w : World) (l : URLSearchParams.t) :
  deref (with_heap (<[fresh (dom (heap w)) := l]> (heap w)) w) (fresh (dom (heap w))) = l.
Proof. unfold deref. simpl. rewrite lookup_insert_eq. reflexivity. Qed.

Lemma updateSearchParams_run (options : option (gmap string UseQueryStateOptions))
    (path : string) (sp : ref) (updates : list (string * string)) (w : World) :
  updates <> [] ->
  UseQueryStrings.updateSearchParams options path sp updates w =
  (tt, {| heap := <[fresh (dom (heap w)) := updated_many options updates (deref w sp)]> (heap w);
          isMounted := isMounted w;
          replaced := replaced w ++
            [{| pathname := path; search := updated_many options updates (deref w sp) |}] |}).
Proof.
  intros Hne. unfold UseQueryStrings.updateSearchParams.
  destruct updates as [|u updates]; [congruence|]. cbn [length Nat.eqb].
  unfold bind. rewrite createSearchParamsWithMany_run. cbn [fst snd].
  unfold sp_toString. cbn [fst snd]. rewrite deref_fresh_insert.
  reflexivity.
Qed.

(** One pass of the effect of [useQueryStrings]. *)
Lemma UseQueryStrings_effect_run (keys : list string)
    (options : option (gmap string UseQueryStateOptions)) (path : string)
    (sp : ref) (w : World) :
  UseQueryStrings.effect keys options path sp w =
  (tt,
   let updates := corrections options (isMounted w) (deref w sp) keys in
   match updates with
   | [] => with_isMounted true w
   | _ :: _ =>
       {| heap := <[fresh (dom (heap w)) := updated_many options updates (deref w sp)]> (heap w);
          isMounted := true;
          replaced := replaced w ++
            [{| pathname := path; search := updated_many options updates (deref w sp) |}] |}
   end).
Proof.
  unfold UseQueryStrings.effect, bind.
  rewrite getSearchParamsUpdates_run. cbn [fst snd].
  unfold get_isMounted. cbn [fst snd].
  set (updates := corrections options (isMounted w) (deref w sp) keys).
  assert (Hm : ((if negb (isMounted w) then set_isMounted true else ret tt) w).2
               = with_isMounted true w).
  { destruct w as [h [|] rp]; reflexivity. }
  rewrite Hm. clear Hm.
  destruct updates as [|u us] eqn:E.
  - reflexivity.
  - cbn [length Nat.ltb Nat.leb].
    rewrite updateSearchParams_run by discriminate. reflexivity.
Qed.

(** One pass of the effect of [useQueryString]. *)
Lemma UseQueryString_effect_run (key : string) (options : option UseQueryStateOptions)
    (path : string) (sp : ref) (w : World) :
  UseQueryString.effect key options path sp w =
  (tt,
   match correction ((fun o => {[key := o]}) <$> options) (isMounted w) (deref w sp) key with
   | None => w
   | Some u =>
       {| heap := <[fresh (dom (heap w)) := updated key u.2 options (deref w sp)]> (heap w);
          isMounted := if unconfigured options then isMounted w else true;
          replaced := replaced w ++
            [{| pathname := path; search := updated key u.2 options (deref w sp) |}] |}
   end).
Proof.
  assert (Hset : forall v w0,
    UseQueryString.setQueryString key options path sp v w0 =
    (tt, {| heap := <[fresh (dom (heap w0)) := updated key v options (deref w0 sp)]> (heap w0);
            isMounted := isMounted w0;
            replaced := replaced w0 ++
              [{| pathname := path; search := updated key v options (deref w0 sp) |}] |})).
  { intros v w0. unfold UseQueryString.setQueryString, bind.
    rewrite createSearchParams_run. cbn [fst snd].
    unfold sp_toString. cbn [fst snd]. rewrite deref_fresh_insert. reflexivity. }
  unfold UseQueryString.effect, correction, bind, sp_has, sp_get, get_isMounted, unconfigured.
  cbn [fst snd].
  destruct options as [o|]; cbn [fmap option_fmap option_map mbind option_bind].
  - rewrite lookup_singleton_eq.
    destruct (Nat.eqb (Object_keys_length o) 0).
    + destruct (URLSearchParams.has (deref w sp) key
                && negb (truthy_maybe (URLSearchParams.get (deref w sp) key)));
        [apply Hset | reflexivity].
    + cbn [fst snd].
      destruct (UseQueryString.outOfCompliance _ _ _ o); [|reflexivity].
      rewrite Hset. destruct w as [h [|] rp]; reflexivity.
  - destruct (URLSearchParams.has (deref w sp) key
              && negb (truthy_maybe (URLSearchParams.get (deref w sp) key)));
      [apply Hset | reflexivity].
Qed.

(** ** The update policy on one entry *)

Lemma shouldRemove_negb (o : UseQueryStateOptions) :
  shouldRemove o = negb (shouldFallback o).
Proof.
  unfold shouldRemove, shouldFallback.
  destruct (resolved_onParseError o); destruct (truthy_maybe (read (defaultValue o)));
    reflexivity.
Qed.

Ltac policy_cases o value :=
  unfold updated, updated_tail;
  rewrite ?(shouldRemove_negb o);
  destruct (read (schema o));
  try match goal with
      | |- context [safeParse ?s value] => destruct (safeParse s value)
      end;
  destruct (shouldFallback o); destruct (truthy value);
  cbn [negb andb orb].

(** The entry of the key after an update does not depend on the pairs the
    object held before. *)
Lemma get_updated_indep (key value : string) (options : option UseQueryStateOptions)
    (l l' : URLSearchParams.t) :
  URLSearchParams.get (updated key value options l) key =
  URLSearchParams.get (updated key value options l') key.
Proof.
  destruct options as [o|].
  - policy_cases o value; rewrite ?get_set_eq, ?get_delete_eq; reflexivity.
  - unfold updated. destruct (truthy value);
      rewrite ?get_set_eq, ?get_delete_eq; reflexivity.
Qed.

(** An update of one key leaves the entry of every other key alone. *)
Lemma get_updated_ne (key other value : string) (options : option UseQueryStateOptions)
    (l : URLSearchParams.t) :
  key <> other ->
  URLSearchParams.get (updated key value options l) other = URLSearchParams.get l other.
Proof.
  intros Hne. destruct options as [o|].
  - policy_cases o value;
      rewrite ?(get_set_ne _ _ _ _ Hne), ?(get_delete_ne _ _ _ Hne); reflexivity.
  - unfold updated. destruct (truthy value);
      rewrite ?(get_set_ne _ _ _ _ Hne), ?(get_delete_ne _ _ _ Hne); reflexivity.
Qed.

Lemma updated_many_app (options : option (gmap string UseQueryStateOptions))
    (us1 us2 : list (string * string)) (l : URLSearchParams.t) :
  updated_many options (us1 ++ us2) l = updated_many options us2 (updated_many options us1 l).
Proof. unfold updated_many. apply foldl_app. Qed.

Lemma get_updated_many_notin (options : option (gmap string UseQueryStateOptions))
    (us : list (string * string)) (key : string) (l : URLSearchParams.t) :
  key ∉ us.*1 ->
  URLSearchParams.get (updated_many options us l) key = URLSearchParams.get l key.
Proof.
  revert l. induction us as [|u us IH]; intros l Hnot; [reflexivity|].
  cbn [fmap list_fmap] in Hnot. apply not_elem_of_cons in Hnot as [Hne Hnot].
  change (updated_many options (u :: us) l)
    with (updated_many options us (updated u.1 u.2 (options ≫= (.!! u.1)) l)).
  rewrite IH by exact Hnot. apply get_updated_ne. congruence.
Qed.

(** Last write wins: the entry of a key after a batch is the one its last
    update gives. *)
Lemma get_updated_many_last (options : option (gmap string UseQueryStateOptions))
    (us1 us2 : list (string * string)) (key value : string) (l : URLSearchParams.t) :
  key ∉ us2.*1 ->
  URLSearchParams.get (updated_many options (us1 ++ (key, value) :: us2) l) key =
  URLSearchParams.get (updated key value (options ≫= (.!! key)) l) key.
Proof.
  intros Hnot. rewrite updated_many_app.
  change (updated_many options ((key, value) :: us2) (updated_many options us1 l))
    with (updated_many options us2
            (updated key value (options ≫= (.!! key)) (updated_many options us1 l))).
  rewrite get_updated_many_notin by exact Hnot.
  apply get_updated_indep.
Qed.

Lemma last_with_key (key : string) (us : list (string * string)) :
  key ∈ us.*1 ->
  exists us1 value us2, us = us1 ++ (key, value) :: us2 /\ key ∉ us2.*1.
Proof.
  induction us as [|[k v] us IH]; intros Hin.
  - cbn in Hin. apply elem_of_nil in Hin. destruct Hin.
  - destruct (decide (key ∈ us.*1)) as [Hrest|Hrest].
    + destruct (IH Hrest) as (us1 & value & us2 & -> & Hnot).
      exists ((k, v) :: us1), value, us2. split; [reflexivity | exact Hnot].
    + cbn [fmap list_fmap] in Hin. apply elem_of_cons in Hin as [Heq|Hin];
        [|contradiction].
      cbn in Heq. subst k. exists [], v, us. split; [reflexivity | exact Hrest].
Qed.

(** When every update of [key] in the batch is the same one, the batch leaves
    the key as that update alone does. *)
Lemma get_updated_many_same (options : option (gmap string UseQueryStateOptions))
    (us : list (string * string)) (key value : string) (l : URLSearchParams.t) :
  (key, value) ∈ us ->
  (forall v, (key, v) ∈ us -> v = value) ->
  URLSearchParams.get (updated_many options us l) key =
  URLSearchParams.get (updated key value (options ≫= (.!! key)) l) key.
Proof.
  intros Hin Hsame.
  assert (Hk : key ∈ us.*1).
  { apply list_elem_of_fmap. exists (key, value). split; [reflexivity | exact Hin]. }
  destruct (last_with_key key us Hk) as (us1 & v & us2 & Hus & Hnot).
  assert (v = value) as ->.
  { apply Hsame. rewrite Hus. apply elem_of_app. right. apply elem_of_cons. left. reflexivity. }
  rewrite Hus. apply get_updated_many_last. exact Hnot.
Qed.

(** ** The corrections of one pass *)

Lemma empty_param (l : URLSearchParams.t) (key : string) :
  URLSearchParams.has l key && negb (truthy_maybe (URLSearchParams.get l key)) = true <->
  URLSearchParams.get l key = Some "".
Proof.
  rewrite has_get. destruct (URLSearchParams.get l key) as [v|]; simpl.
  - rewrite negb_true_iff, truthy_false. split; congruence.
  - split; discriminate.
Qed.

(** A correction carries its key, and the value the key has (or [""]). *)
Lemma correction_Some (options : option (gmap string UseQueryStateOptions))
    (mounted : bool) (l : URLSearchParams.t) (key : string) (u : string * string) :
  correction options mounted l key = Some u ->
  u = (key, default "" (URLSearchParams.get l key)).
Proof.
  unfold correction.
  assert (Hempty : forall x : option (string * string),
    (if URLSearchParams.has l key && negb (truthy_maybe (URLSearchParams.get l key))
     then Some (key, "") else x) = Some u ->
    x = Some u \/ u = (key, default "" (URLSearchParams.get l key))).
  { intros x.
    destruct (URLSearchParams.has l key && negb (truthy_maybe (URLSearchParams.get l key)))
      eqn:E; [|left; assumption].
    apply empty_param in E. rewrite E. intros [= <-]. right. reflexivity. }
  destruct (options ≫= (.!! key)) as [o|].
  - destruct (Nat.eqb (Object_keys_length o) 0).
    + intros H. apply Hempty in H as [H|H]; [discriminate | exact H].
    + destruct (UseQueryString.outOfCompliance _ _ _ o); [|discriminate].
      intros [= <-]. reflexivity.
  - intros H. apply Hempty in H as [H|H]; [discriminate | exact H].
Qed.

Lemma elem_of_corrections (options : option (gmap string UseQueryStateOptions))
    (mounted : bool) (l : URLSearchParams.t) (keys : list string) (u : string * string) :
  u ∈ corrections options mounted l keys <->
  u.1 ∈ keys /\ correction options mounted l u.1 = Some u.
Proof.
  unfold corrections. rewrite list_elem_of_omap. split.
  - intros (key & Hin & Hc).
    pose proof (correction_Some _ _ _ _ _ Hc) as Hu.
    assert (u.1 = key) as -> by (rewrite Hu; reflexivity).
    split; assumption.
  - intros [Hin Hc]. exists u.1. split; assumption.
Qed.

(** In the list of one pass all the corrections of a key are the same. *)
Lemma corrections_same (options : option (gmap string UseQueryStateOptions))
    (mounted : bool) (l : URLSearchParams.t) (keys : list string) (key v v' : string) :
  (key, v) ∈ corrections options mounted l keys ->
  (key, v') ∈ corrections options mounted l keys ->
  v' = v.
Proof.
  rewrite !elem_of_corrections. cbn [fst]. intros [_ H1] [_ H2]. congruence.
Qed.

(** The query a batch of corrections gives agrees, at each corrected key,
    with the correction of that key alone. *)
Lemma get_after_corrections (options : option (gmap string UseQueryStateOptions))
    (mounted : bool) (l : URLSearchParams.t) (keys : list string) (key v : string) :
  (key, v) ∈ corrections options mounted l keys ->
  URLSearchParams.get
    (updated_many options (corrections options mounted l keys) l) key =
  URLSearchParams.get (updated key v (options ≫= (.!! key)) l) key.
Proof.
  intros Hin. apply get_updated_many_same; [exact Hin|].
  intros v' Hin'. exact (corrections_same _ _ _ _ _ _ _ Hin Hin').
Qed.

Lemma new_calls_snoc (w : World) (h : gmap ref (list (string * string)))
    (b : bool) (c : Href) :
  new_calls w {| heap := h; isMounted := b; replaced := replaced w ++ [c] |} = [c].
Proof.
  unfold new_calls. cbn [replaced]. rewrite drop_app_length. reflexivity.
Qed.

Lemma new_calls_none (w w' : World) :
  replaced w' = replaced w -> new_calls w w' = [].
Proof.
  unfold new_calls. intros ->. apply drop_all.
Qed.

(** ** Mount state *)

(** The effect of [useQueryStrings] always leaves [isMounted] set. *)
Lemma UseQueryStrings_effect_mounts (keys : list string)
    (options : option (gmap string UseQueryStateOptions)) (path : string)
    (sp : ref) (w : World) :
  isMounted (exec (UseQueryStrings.effect keys options path sp) w) = true.
Proof.
  unfold exec. rewrite UseQueryStrings_effect_run. cbn [snd].
  destruct (corrections options (isMounted w) (deref w sp) keys); reflexivity.
Qed.

(** The effect of [useQueryString] sets [isMounted] only on the way to a
    correction of a configured key. *)
Lemma UseQueryString_effect_isMounted (key : string) (options : option UseQueryStateOptions)
    (path : string) (sp : ref) (w : World) :
  isMounted (exec (UseQueryString.effect key options path sp) w) =
  isMounted w
  || (negb (unconfigured options)
      && bool_decide (new_calls w (exec (UseQueryString.effect key options path sp) w) <> [])).
Proof.
  unfold exec. rewrite UseQueryString_effect_run. cbn [snd].
  destruct (correction _ (isMounted w) (deref w sp) key) as [u|].
  - rewrite new_calls_snoc. cbn [isMounted].
    rewrite bool_decide_eq_true_2 by discriminate.
    destruct (unconfigured options); cbn; [rewrite orb_false_r | rewrite orb_true_r];
      reflexivity.
  - rewrite new_calls_none by reflexivity.
    rewrite bool_decide_eq_false_2 by (intros H; apply H; reflexivity).
    rewrite andb_false_r, orb_false_r. reflexivity.
Qed.

(** C1 (the single-key half fails).  [useQueryString("page", { defaultValue:
    "1" })] is mounted on the location [?page=1]: the pass of its effect finds
    nothing to correct, makes no call of [router.replace], and leaves
    [isMounted] false, where the claim has it true after every pass.  The
    sibling [useQueryStrings], on the same key, options and location, leaves
    it true. *)
Theorem C1_useQueryString_leaves_isMounted_false :
  let o := {| defaultValue := Defined "1"; schema := Absent; onParseError := Absent |} in
  let w := {| heap := {[ 0 := [("page", "1")] ]}; isMounted := false; replaced := [] |} in
  isMounted (exec (UseQueryString.effect "page" (Some o) "/docs" 0) w) = false
  /\ replaced (exec (UseQueryString.effect "page" (Some o) "/docs" 0) w) = []
  /\ isMounted (exec (UseQueryStrings.effect ["page"] (Some {[ "page" := o ]}) "/docs" 0) w) = true.
Proof. vm_compute. repeat split; reflexivity. Qed.

(** ** The update policy *)

Lemma sp_set_get (r : ref) (key value : string) (w : World) :
  is_Some (heap w !! r) ->
  eval (sp_get r key) (exec (sp_set r key value) w) = Some value.
Proof.
  intros Hr. unfold eval, exec, sp_get, sp_set. cbn [fst snd].
  rewrite deref_alter_eq by exact Hr. apply get_set_eq.
Qed.

Lemma sp_delete_get (r : ref) (key : string) (w : World) :
  is_Some (heap w !! r) ->
  eval (sp_get r key) (exec (sp_delete r key) w) = None.
Proof.
  intros Hr. unfold eval, exec, sp_get, sp_delete. cbn [fst snd].
  rewrite deref_alter_eq by exact Hr. apply get_delete_eq.
Qed.

(** After a schema failure the function is one [set] or one [delete]. *)
Lemma updateQueryState_failure (key value : string) (r : ref)
    (o : UseQueryStateOptions) (s : ZodType) :
  read (schema o) = Some s ->
  safeParse s value = ParseFailure ->
  updateQueryState key value r (Some o) =
  if shouldFallback o then sp_set r key (USVString (read (defaultValue o)))
  else sp_delete r key.
Proof.
  intros Hs Hf. unfold updateQueryState. rewrite Hs, Hf.
  rewrite (shouldRemove_negb o). destruct (shouldFallback o); reflexivity.
Qed.

(** C2, amended: the default value counts only when it is not the empty
    string.  When the schema of a key rejects the candidate value,
    [updateQueryState] is exactly [searchParams.set(key, defaultValue)] if
    [onParseError] resolves to [fallback] and a non-empty [defaultValue] is
    there, and exactly [searchParams.delete(key)] if [onParseError] is
    [remove] or there is no non-empty [defaultValue]; one of the two cases
    always applies, and the function returns in both (it has no other
    outcome than the new state). *)
Theorem C2_schema_failure_falls_back_or_removes (key value : string) (r : ref)
    (o : UseQueryStateOptions) (s : ZodType) :
  read (schema o) = Some s ->
  safeParse s value = ParseFailure ->
  (forall d, resolved_onParseError o = Fallback -> read (defaultValue o) = Some d ->
     d <> "" ->
     updateQueryState key value r (Some o) = sp_set r key d
     /\ forall w, is_Some (heap w !! r) ->
          eval (sp_get r key) (exec (updateQueryState key value r (Some o)) w) = Some d)
  /\ (resolved_onParseError o = Remove \/ hasDefaultValue o = false ->
      updateQueryState key value r (Some o) = sp_delete r key
      /\ forall w, is_Some (heap w !! r) ->
           eval (sp_get r key) (exec (updateQueryState key value r (Some o)) w) = None)
  /\ ((resolved_onParseError o = Fallback /\ hasDefaultValue o = true)
      \/ (resolved_onParseError o = Remove \/ hasDefaultValue o = false)).
Proof.
  intros Hs Hf. rewrite (updateQueryState_failure key value r o s Hs Hf).
  unfold shouldFallback, hasDefaultValue. split; [|split].
  - intros d Hp Hd Hne. rewrite Hp, Hd. cbn [truthy_maybe].
    rewrite (proj2 (truthy_true d) Hne).
    rewrite bool_decide_eq_true_2 by reflexivity. cbn [andb USVString default].
    split; [reflexivity|]. intros w Hr. apply sp_set_get. exact Hr.
  - intros Hcase.
    assert (Hb : bool_decide (resolved_onParseError o = Fallback)
                 && truthy_maybe (read (defaultValue o)) = false).
    { destruct Hcase as [Hp|Hd].
      - rewrite Hp. reflexivity.
      - rewrite Hd. apply andb_false_r. }
    rewrite Hb. split; [reflexivity|]. intros w Hr. apply sp_delete_get. exact Hr.
  - destruct (resolved_onParseError o); destruct (truthy_maybe (read (defaultValue o)));
      auto.
Qed.

Lemma C2_schema_failure_falls_back_or_removes_witness :
  let o := {| defaultValue := Defined "asc"; schema := Defined (z_enum ["asc"; "desc"]);
              onParseError := Absent |} in
  let o' := {| defaultValue := Defined "asc"; schema := Defined (z_enum ["asc"; "desc"]);
               onParseError := Defined Remove |} in
  eval (sp_get 0 "sort")
    (exec (updateQueryState "sort" "up" 0 (Some o)) (at_location [("sort", "up")])) = Some "asc"
  /\ eval (sp_get 0 "sort")
    (exec (updateQueryState "sort" "up" 0 (Some o')) (at_location [("sort", "up")])) = None.
Proof.
  intros o o'. split.
  - destruct (C2_schema_failure_falls_back_or_removes "sort" "up" 0 o
                (z_enum ["asc"; "desc"]) eq_refl eq_refl) as [H _].
    destruct (H "asc" eq_refl eq_refl) as [_ H']; [discriminate|].
    apply H'. eexists; reflexivity.
  - destruct (C2_schema_failure_falls_back_or_removes "sort" "up" 0 o'
                (z_enum ["asc"; "desc"]) eq_refl eq_refl) as (_ & H & _).
    destruct H as [_ H']; [left; reflexivity|].
    apply H'. eexists; reflexivity.
Defined.

(** C2 as it is written fails when the configured [defaultValue] is the empty
    string: with [onParseError] resolving to [fallback] and a schema that
    rejects ["up"], the entry is not set to [defaultValue] but deleted. *)
Lemma C2_counterexample_empty_defaultValue :
  let o := {| defaultValue := Defined ""; schema := Defined (z_enum ["asc"; "desc"]);
              onParseError := Defined Fallback |} in
  safeParse (z_enum ["asc"; "desc"]) "up" = ParseFailure
  /\ resolved_onParseError o = Fallback
  /\ read (defaultValue o) = Some ""
  /\ eval (sp_get 0 "sort")
       (exec (updateQueryState "sort" "up" 0 (Some o)) (at_location [("sort", "up")]))
     <> Some ""
  /\ eval (sp_get 0 "sort")
       (exec (updateQueryState "sort" "up" 0 (Some o)) (at_location [("sort", "up")]))
     = None.
Proof. vm_compute. repeat split; congruence. Qed.

(** C4.  When the schema of a key accepts the candidate value [v] with the
    string [V], [updateQueryState] is exactly [searchParams.set(key, V)]: the
    entry becomes [V], not [v], whatever [defaultValue] and [onParseError]
    are and whether or not [v] is empty. *)
Theorem C4_schema_success_sets_parsed_value (key v : string) (r : ref)
    (o : UseQueryStateOptions) (s : ZodType) (V : string) :
  read (schema o) = Some s ->
  safeParse s v = ParseSuccess V ->
  updateQueryState key v r (Some o) = sp_set r key V
  /\ forall w, is_Some (heap w !! r) ->
       eval (sp_get r key) (exec (updateQueryState key v r (Some o)) w) = Some V.
Proof.
  intros Hs Hv.
  assert (H : updateQueryState key v r (Some o) = sp_set r key V).
  { unfold updateQueryState. rewrite Hs, Hv. reflexivity. }
  split; [exact H|]. intros w Hr. rewrite H. apply sp_set_get. exact Hr.
Qed.

Lemma C4_schema_success_sets_parsed_value_witness :
  let o := {| defaultValue := Defined "x"; schema := Defined z_versioned;
              onParseError := Defined Remove |} in
  updateQueryState "tag" "2" 0 (Some o) = sp_set 0 "tag" "v2"
  /\ eval (sp_get 0 "tag")
       (exec (updateQueryState "tag" "2" 0 (Some o)) (at_location [("tag", "2")]))
     = Some "v2".
Proof.
  pose proof (C4_schema_success_sets_parsed_value "tag" "2" 0
                {| defaultValue := Defined "x"; schema := Defined z_versioned;
                   onParseError := Defined Remove |} z_versioned "v2" eq_refl eq_refl) as [H1 H2].
  split; [exact H1|]. apply H2. eexists; reflexivity.
Defined.

(** C9.  [shouldFallback] and [shouldRemove] are never both false (each is
    the negation of the other); after a schema failure the function returns
    from inside the schema block, by the [set] of the fallback or by the
    [delete], so the three closing [if]s are not reached from there; and for
    all options and values the function is one of [set], [delete] or nothing. *)
Theorem C9_update_policy_total (key value : string) (r : ref) :
  (forall o, shouldFallback o || shouldRemove o = true)
  /\ (forall o, shouldRemove o = negb (shouldFallback o))
  /\ (forall o s, read (schema o) = Some s -> safeParse s value = ParseFailure ->
        updateQueryState key value r (Some o) =
        if shouldFallback o then sp_set r key (USVString (read (defaultValue o)))
        else sp_delete r key)
  /\ (forall options,
        (exists v, updateQueryState key value r options = sp_set r key v)
        \/ updateQueryState key value r options = sp_delete r key
        \/ updateQueryState key value r options = ret tt).
Proof.
  split; [|split; [|split]].
  - intros o. rewrite shouldRemove_negb. apply orb_negb_r.
  - apply shouldRemove_negb.
  - intros o s. apply updateQueryState_failure.
  - intros [o|]; unfold updateQueryState, updateQueryState_tail.
    + destruct (read (schema o)) as [s|];
        [destruct (safeParse s value)|];
        destruct (shouldFallback o); destruct (shouldRemove o);
        destruct (truthy value); cbn [negb andb]; eauto.
    + destruct (truthy value); eauto.
Qed.

Lemma C9_update_policy_total_witness :
  let o := {| defaultValue := Absent; schema := Defined (z_enum ["1"; "2"]);
              onParseError := Absent |} in
  shouldFallback o || shouldRemove o = true
  /\ updateQueryState "n" "abc" 0 (Some o) = sp_delete 0 "n".
Proof.
  intros o.
  pose proof (C9_update_policy_total "n" "abc" 0) as (H1 & _ & H3 & _).
  split; [apply H1|]. exact (H3 o (z_enum ["1"; "2"]) eq_refl eq_refl).
Defined.

(** ** Keys without options *)

(** C7.  Without options [updateQueryState] is [set(key, value)] for a
    non-empty value and [delete(key)] for the empty one; no default and no
    schema are looked at.  For a key without options
    [getSearchParamsUpdates] holds a correction exactly when the key is in the
    location with the empty value, and the correction is [(key, "")]; the
    effect of [useQueryString] then calls [router.replace] once, with the key
    deleted, and in every other case makes no call. *)
Theorem C7_key_without_options (key : string) :
  (forall value r, value <> "" -> updateQueryState key value r None = sp_set r key value)
  /\ (forall r, updateQueryState key "" r None = sp_delete r key)
  /\ (forall keys options sp w u,
        options ≫= (.!! key) = None -> u.1 = key ->
        (u ∈ eval (UseQueryStrings.getSearchParamsUpdates keys options sp) w <->
         key ∈ keys /\ eval (sp_get sp key) w = Some "" /\ u = (key, "")))
  /\ (forall path sp w,
        new_calls w (exec (UseQueryString.effect key None path sp) w) =
        if bool_decide (eval (sp_get sp key) w = Some "") then
          [{| pathname := path; search := URLSearchParams.delete (deref w sp) key |}]
        else []).
Proof.
  split; [|split; [|split]].
  - intros value r Hne. unfold updateQueryState.
    rewrite (proj2 (truthy_true value) Hne). reflexivity.
  - intros r. reflexivity.
  - intros keys options sp w u Hopt Hu. unfold eval.
    rewrite getSearchParamsUpdates_run. cbn [fst].
    rewrite elem_of_corrections, Hu. unfold sp_get. cbn [fst].
    unfold correction. rewrite Hopt.
    destruct (URLSearchParams.has (deref w sp) key
              && negb (truthy_maybe (URLSearchParams.get (deref w sp) key))) eqn:E.
    + apply empty_param in E. split.
      * intros [Hin [= <-]]. auto.
      * intros (Hin & _ & ->). auto.
    + split.
      * intros [_ H]. discriminate.
      * intros (_ & Hget & _). apply empty_param in Hget. congruence.
  - intros path sp w. unfold exec, eval, sp_get.
    rewrite UseQueryString_effect_run. cbn [fst snd fmap option_fmap option_map].
    unfold correction. cbn [mbind option_bind].
    destruct (URLSearchParams.has (deref w sp) key
              && negb (truthy_maybe (URLSearchParams.get (deref w sp) key))) eqn:E.
    + rewrite new_calls_snoc. apply empty_param in E.
      rewrite bool_decide_eq_true_2 by exact E. reflexivity.
    + rewrite new_calls_none by reflexivity.
      rewrite bool_decide_eq_false_2; [reflexivity|].
      intros Hget. apply empty_param in Hget. congruence.
Qed.

Lemma C7_key_without_options_witness :
  updateQueryState "q" "rocq" 0 None = sp_set 0 "q" "rocq"
  /\ (("q", "") ∈ eval (UseQueryStrings.getSearchParamsUpdates ["q"; "page"] None 0)
                    (at_location [("q", "")]) <->
      "q" ∈ ["q"; "page"]
      /\ eval (sp_get 0 "q") (at_location [("q", "")]) = Some "" /\ ("q", "") = ("q", "")).
Proof.
  pose proof (C7_key_without_options "q") as (H1 & _ & H3 & _).
  split.
  - apply H1. discriminate.
  - apply (H3 ["q"; "page"] None 0 (at_location [("q", "")]) ("q", ""));
      reflexivity.
Defined.

(** ** The params builders *)

Lemma fresh_not_allocated (w : World) : heap w !! fresh (dom (heap w)) = None.
Proof. apply not_elem_of_dom. apply is_fresh. Qed.

(** C8.  Called on an existing object [searchParams], both builders return a
    reference to a new object, leave every object there was (the argument
    among them), the mount state and the log of the router as they were, and
    the new object holds the pairs of the argument changed by
    [updateQueryState], one update after the other in the order of the list;
    so the entry of a key is the one its last update in the list gives. *)
Theorem C8_params_builders_copy_on_write (sp : ref) (w : World) :
  is_Some (heap w !! sp) ->
  (forall updates options,
     let r := eval (createSearchParamsWithMany updates sp options) w in
     let w' := exec (createSearchParamsWithMany updates sp options) w in
     heap w !! r = None
     /\ (forall r0, is_Some (heap w !! r0) -> heap w' !! r0 = heap w !! r0)
     /\ deref w' sp = deref w sp
     /\ isMounted w' = isMounted w /\ replaced w' = replaced w
     /\ deref w' r =
        foldl (fun l u => updated u.1 u.2 (options ≫= (.!! u.1)) l) (deref w sp) updates
     /\ (forall us1 key value us2,
           updates = us1 ++ (key, value) :: us2 -> key ∉ us2.*1 ->
           URLSearchParams.get (deref w' r) key =
           URLSearchParams.get (updated key value (options ≫= (.!! key)) (deref w sp)) key))
  /\ (forall update options,
        let r := eval (createSearchParams update sp options) w in
        let w' := exec (createSearchParams update sp options) w in
        heap w !! r = None
        /\ (forall r0, is_Some (heap w !! r0) -> heap w' !! r0 = heap w !! r0)
        /\ deref w' sp = deref w sp
        /\ isMounted w' = isMounted w /\ replaced w' = replaced w
        /\ deref w' r = updated update.1 update.2 options (deref w sp)).
Proof.
  intros Hsp.
  assert (Hframe : forall l r0, is_Some (heap w !! r0) ->
            <[fresh (dom (heap w)) := l]> (heap w) !! r0 = heap w !! r0).
  { intros l r0 Hr0. apply lookup_insert_ne. intros Heq. subst r0.
    rewrite fresh_not_allocated in Hr0. destruct Hr0 as [x Hx]. discriminate. }
  split.
  - intros updates options r w'. subst r w'. unfold eval, exec.
    rewrite createSearchParamsWithMany_run. cbn [fst snd].
    split; [apply fresh_not_allocated|].
    split; [intros r0 Hr0; cbn [heap with_heap]; apply Hframe; exact Hr0|].
    split; [unfold deref; cbn [heap with_heap]; rewrite Hframe by exact Hsp; reflexivity|].
    split; [reflexivity|]. split; [reflexivity|].
    rewrite deref_fresh_insert. split; [reflexivity|].
    intros us1 key value us2 -> Hnot. apply get_updated_many_last. exact Hnot.
  - intros update options r w'. subst r w'. unfold eval, exec.
    rewrite createSearchParams_run. cbn [fst snd].
    split; [apply fresh_not_allocated|].
    split; [intros r0 Hr0; cbn [heap with_heap]; apply Hframe; exact Hr0|].
    split; [unfold deref; cbn [heap with_heap]; rewrite Hframe by exact Hsp; reflexivity|].
    split; [reflexivity|]. split; [reflexivity|].
    apply deref_fresh_insert.
Qed.

Lemma C8_params_builders_copy_on_write_witness :
  let w := at_location [("page", "3"); ("q", "")] in
  let updates := [("page", "4"); ("q", ""); ("page", "5")] in
  let r := eval (createSearchParamsWithMany updates 0 None) w in
  let w' := exec (createSearchParamsWithMany updates 0 None) w in
  is_Some (heap w !! 0)
  /\ deref w' 0 = [("page", "3"); ("q", "")]
  /\ URLSearchParams.get (deref w' r) "page" = Some "5".
Proof.
  intros w updates r w'.
  assert (H0 : is_Some (heap w !! 0)) by (eexists; reflexivity).
  split; [exact H0|].
  destruct (C8_params_builders_copy_on_write 0 w H0) as [H _].
  destruct (H updates None) as (_ & _ & Hsame & _ & _ & _ & Hlast).
  split; [exact Hsame|].
  etransitivity.
  - apply (Hlast [("page", "4"); ("q", "")] "page" "5" [] eq_refl).
    apply not_elem_of_nil.
  - reflexivity.
Defined.

(** ** One pass of [useQueryStrings] *)

Lemma UseQueryStrings_effect_calls (keys : list string)
    (options : option (gmap string UseQueryStateOptions)) (path : string)
    (sp : ref) (w : World) :
  new_calls w (exec (UseQueryStrings.effect keys options path sp) w) =
  match corrections options (isMounted w) (deref w sp) keys with
  | [] => []
  | updates =>
      [{| pathname := path; search := updated_many options updates (deref w sp) |}]
  end.
Proof.
  unfold exec. rewrite UseQueryStrings_effect_run. cbn [snd].
  destruct (corrections options (isMounted w) (deref w sp) keys).
  - apply new_calls_none. reflexivity.
  - apply new_calls_snoc.
Qed.

(** C5.  When the pass of the effect of [useQueryStrings] finds two or more
    keys to correct, it calls [router.replace] exactly once; the query of that
    call is the location with all the corrections applied, and it has, for
    every corrected key, the entry the correction of that key gives. *)
Theorem C5_one_replace_for_all_corrections (keys : list string)
    (options : option (gmap string UseQueryStateOptions)) (path : string)
    (sp : ref) (w : World) :
  2 <= length (eval (UseQueryStrings.getSearchParamsUpdates keys options sp) w) ->
  exists href,
    new_calls w (exec (UseQueryStrings.effect keys options path sp) w) = [href]
    /\ pathname href = path
    /\ search href =
       updated_many options
         (eval (UseQueryStrings.getSearchParamsUpdates keys options sp) w) (deref w sp)
    /\ forall key value,
         (key, value) ∈ eval (UseQueryStrings.getSearchParamsUpdates keys options sp) w ->
         URLSearchParams.get (search href) key =
         URLSearchParams.get (updated key value (options ≫= (.!! key)) (deref w sp)) key.
Proof.
  unfold eval. rewrite getSearchParamsUpdates_run. cbn [fst]. intros Hlen.
  rewrite UseQueryStrings_effect_calls.
  destruct (corrections options (isMounted w) (deref w sp) keys) as [|u us] eqn:E.
  - cbn in Hlen. lia.
  - eexists. split; [reflexivity|]. split; [reflexivity|]. split; [reflexivity|].
    intros key value Hin. cbn [search]. rewrite <- E in *.
    apply get_after_corrections. exact Hin.
Qed.

Lemma C5_one_replace_for_all_corrections_witness :
  let options : gmap string UseQueryStateOptions :=
    {[ "page" := {| defaultValue := Defined "1"; schema := Absent; onParseError := Absent |} ]} in
  let w := at_location [("sort", "")] in
  2 <= length (eval (UseQueryStrings.getSearchParamsUpdates ["page"; "sort"] (Some options) 0) w)
  /\ exists href,
       new_calls w (exec (UseQueryStrings.effect ["page"; "sort"] (Some options) "/docs" 0) w)
       = [href]
       /\ search href = [("page", "1")].
Proof.
  intros options w.
  assert (Hlen : 2 <= length (eval (UseQueryStrings.getSearchParamsUpdates
                                     ["page"; "sort"] (Some options) 0) w)).
  { vm_compute. lia. }
  split; [exact Hlen|].
  destruct (C5_one_replace_for_all_corrections ["page"; "sort"] (Some options) "/docs" 0 w Hlen)
    as (href & Hcalls & _ & Hsearch & _).
  exists href. split; [exact Hcalls|].
  rewrite Hsearch. vm_compute. reflexivity.
Defined.

(** ** Default values *)

Lemma Object_keys_length_default (o : UseQueryStateOptions) (D : string) :
  read (defaultValue o) = Some D -> Nat.eqb (Object_keys_length o) 0 = false.
Proof.
  unfold Object_keys_length. destruct (defaultValue o); cbn; congruence.
Qed.

(** A key that is missing and has a (non-empty) default is corrected in
    every pass, with the value [""]. *)
Lemma correction_missing_default (options : option (gmap string UseQueryStateOptions))
    (mounted : bool) (l : URLSearchParams.t) (key D : string) (o : UseQueryStateOptions) :
  options ≫= (.!! key) = Some o ->
  read (defaultValue o) = Some D -> D <> "" ->
  URLSearchParams.has l key = false ->
  correction options mounted l key = Some (key, "").
Proof.
  intros Hopt HD Hne Hhas. unfold correction. rewrite Hopt.
  rewrite (Object_keys_length_default o D HD).
  unfold UseQueryString.outOfCompliance, hasDefaultValue.
  rewrite Hhas, HD. cbn [truthy_maybe negb andb].
  rewrite (proj2 (truthy_true D) Hne), orb_true_r.
  apply has_false_get in Hhas. rewrite Hhas. reflexivity.
Qed.

(** With [fallback], a non-empty default and no schema taking the empty
    string, the update for the value [""] sets the default. *)
Lemma updated_missing_default (key D : string) (o : UseQueryStateOptions)
    (l : URLSearchParams.t) :
  read (defaultValue o) = Some D -> D <> "" ->
  resolved_onParseError o = Fallback ->
  (forall s, read (schema o) = Some s -> safeParse s "" = ParseFailure) ->
  updated key "" (Some o) l = URLSearchParams.set l key D.
Proof.
  intros HD Hne Hp Hs.
  assert (Hfb : shouldFallback o = true).
  { unfold shouldFallback. rewrite Hp, HD. cbn [truthy_maybe].
    rewrite (proj2 (truthy_true D) Hne). reflexivity. }
  unfold updated, updated_tail. rewrite Hfb.
  destruct (read (schema o)) as [s|] eqn:E.
  - rewrite (Hs s eq_refl), HD. reflexivity.
  - rewrite HD. reflexivity.
Qed.

(** C3, amended: the default value is not the empty string, [onParseError]
    resolves to [fallback], and the schema, if there is one, rejects the empty
    string (the value the correction carries; the schema is never run on the
    default itself).  Then, for a key that is not in the location, a pass of
    the effect (the first one or a later one) emits the correction [(key, "")]
    and calls [router.replace] once with a query where the key has its default
    value; this holds for [useQueryStrings], whatever the other keys are, and
    for [useQueryString]. *)
Theorem C3_missing_key_gets_default (key D : string) (o : UseQueryStateOptions)
    (path : string) (sp : ref) (w : World) :
  read (defaultValue o) = Some D ->
  D <> "" ->
  resolved_onParseError o = Fallback ->
  (forall s, read (schema o) = Some s -> safeParse s "" = ParseFailure) ->
  eval (sp_has sp key) w = false ->
  (forall keys options,
     key ∈ keys -> options ≫= (.!! key) = Some o ->
     (key, "") ∈ eval (UseQueryStrings.getSearchParamsUpdates keys options sp) w
     /\ exists href,
          new_calls w (exec (UseQueryStrings.effect keys options path sp) w) = [href]
          /\ URLSearchParams.get (search href) key = Some D)
  /\ (exists href,
        new_calls w (exec (UseQueryString.effect key (Some o) path sp) w) = [href]
        /\ URLSearchParams.get (search href) key = Some D).
Proof.
  intros HD Hne Hp Hs Hhas. unfold eval, sp_has in Hhas. cbn [fst] in Hhas.
  split.
  - intros keys options Hin Hopt.
    pose proof (correction_missing_default options (isMounted w) (deref w sp) key D o
                  Hopt HD Hne Hhas) as Hc.
    assert (Hmem : (key, "") ∈ corrections options (isMounted w) (deref w sp) keys).
    { apply elem_of_corrections. split; assumption. }
    unfold eval. rewrite getSearchParamsUpdates_run. cbn [fst].
    split; [exact Hmem|].
    rewrite UseQueryStrings_effect_calls.
    pose proof (get_after_corrections _ _ _ _ _ _ Hmem) as Hget.
    rewrite Hopt, (updated_missing_default key D o _ HD Hne Hp Hs), get_set_eq in Hget.
    destruct (corrections options (isMounted w) (deref w sp) keys) as [|u us] eqn:E.
    + apply elem_of_nil in Hmem. destruct Hmem.
    + eexists. split; [reflexivity|]. exact Hget.
  - unfold exec. rewrite UseQueryString_effect_run. cbn [snd fmap option_fmap option_map].
    rewrite (correction_missing_default (Some {[key := o]}) (isMounted w) (deref w sp) key D o);
      [|cbn; apply lookup_singleton_eq|exact HD|exact Hne|exact Hhas].
    rewrite new_calls_snoc. eexists. split; [reflexivity|]. cbn [search snd].
    rewrite (updated_missing_default key D o _ HD Hne Hp Hs). apply get_set_eq.
Qed.

Lemma C3_missing_key_gets_default_witness :
  let o := {| defaultValue := Defined "10"; schema := Absent; onParseError := Absent |} in
  let w := at_location [("q", "rocq")] in
  exists href,
    new_calls w (exec (UseQueryString.effect "page" (Some o) "/docs" 0) w) = [href]
    /\ URLSearchParams.get (search href) "page" = Some "10".
Proof.
  intros o w.
  refine (proj2 (C3_missing_key_gets_default "page" "10" o "/docs" 0 w
                   eq_refl _ eq_refl _ eq_refl)).
  - discriminate.
  - intros s Hs. discriminate Hs.
Defined.

(** C3 as it is written fails in three ways, each on the location without the
    key [page] and with [defaultValue: "10"] (or [""]): with [onParseError:
    "remove"] the correction deletes the key; with the schema [z.string()],
    which accepts ["10"], the correction sets the key to the empty string the
    schema hands back; and with the default [""] no correction is emitted. *)
Lemma C3_counterexample_default_not_materialised :
  let w := at_location [] in
  let removing := {| defaultValue := Defined "10"; schema := Absent;
                     onParseError := Defined Remove |} in
  let accepting := {| defaultValue := Defined "10"; schema := Defined z_string;
                      onParseError := Absent |} in
  let empty := {| defaultValue := Defined ""; schema := Absent; onParseError := Absent |} in
  (eval (sp_has 0 "page") w = false)
  /\ (new_calls w (exec (UseQueryStrings.effect ["page"] (Some {[ "page" := removing ]}) "/docs" 0) w)
      = [{| pathname := "/docs"; search := [] |}])
  /\ (safeParse z_string "10" = ParseSuccess "10"
      /\ new_calls w (exec (UseQueryStrings.effect ["page"] (Some {[ "page" := accepting ]}) "/docs" 0) w)
         = [{| pathname := "/docs"; search := [("page", "")] |}])
  /\ (eval (UseQueryStrings.getSearchParamsUpdates ["page"] (Some {[ "page" := empty ]}) 0) w = []
      /\ new_calls w (exec (UseQueryStrings.effect ["page"] (Some {[ "page" := empty ]}) "/docs" 0) w)
         = []).
Proof. vm_compute. repeat split; reflexivity. Qed.

(** ** A second pass *)

Lemma correction_frame (options : option (gmap string UseQueryStateOptions))
    (mounted : bool) (l : URLSearchParams.t) (key k v : string)
    (o : option UseQueryStateOptions) :
  k <> key ->
  correction options mounted (updated k v o l) key = correction options mounted l key.
Proof.
  intros Hne. unfold correction.
  rewrite !has_get, (get_updated_ne k key v o l Hne). reflexivity.
Qed.

(** What a mounted pass asks of a key to leave it alone. *)
Lemma correction_mounted_None (options : option (gmap string UseQueryStateOptions))
    (l : URLSearchParams.t) (key : string) :
  match URLSearchParams.get l key with
  | Some x => x <> ""
  | None => forall o, options ≫= (.!! key) = Some o -> hasDefaultValue o = false
  end ->
  correction options true l key = None.
Proof.
  unfold correction, UseQueryString.outOfCompliance. rewrite has_get.
  destruct (URLSearchParams.get l key) as [x|]; intros H.
  - cbn [truthy_maybe]. rewrite (proj2 (truthy_true x) H). cbn.
    destruct (options ≫= (.!! key)) as [o|]; [|reflexivity].
    destruct (Nat.eqb (Object_keys_length o) 0); reflexivity.
  - cbn. destruct (options ≫= (.!! key)) as [o|]; [|reflexivity].
    rewrite (H o eq_refl). destruct (Nat.eqb (Object_keys_length o) 0); reflexivity.
Qed.

Lemma correction_None_mounted (options : option (gmap string UseQueryStateOptions))
    (mounted : bool) (l : URLSearchParams.t) (key : string) :
  correction options mounted l key = None -> correction options true l key = None.
Proof.
  unfold correction, UseQueryString.outOfCompliance.
  destruct (options ≫= (.!! key)) as [o|]; [|tauto].
  destruct (Nat.eqb (Object_keys_length o) 0); [tauto|].
  destruct mounted; [tauto|]. cbn [negb andb orb].
  destruct (hasDefaultValue o); destruct (hasSchema o);
    destruct (strict_neq (URLSearchParams.get l key) (read (defaultValue o)));
    destruct (URLSearchParams.has l key);
    destruct (truthy_maybe (URLSearchParams.get l key)); cbn; congruence.
Qed.

(** Under [settles], the update of a key leaves it with a non-empty value, or
    without a value and without a default. *)
Lemma updated_entry_settled (key v : string) (options : option UseQueryStateOptions)
    (l : URLSearchParams.t) :
  settles options ->
  match URLSearchParams.get (updated key v options l) key with
  | Some x => x <> ""
  | None => forall o, options = Some o -> hasDefaultValue o = false
  end.
Proof.
  destruct options as [o|]; cbn [settles].
  - intros [Hschema Hdefault].
    assert (Hfb : shouldFallback o = true ->
              exists d, read (defaultValue o) = Some d /\ d <> "").
    { unfold shouldFallback. intros H. apply andb_true_iff in H as [_ H].
      destruct (read (defaultValue o)) as [d|]; [|discriminate].
      exists d. split; [reflexivity|]. apply truthy_true. exact H. }
    assert (Hrm : shouldFallback o = false -> forall o', Some o = Some o' ->
              hasDefaultValue o' = false).
    { intros H o' [= <-]. destruct (hasDefaultValue o) eqn:E; [|reflexivity].
      unfold shouldFallback in H. unfold hasDefaultValue in E.
      rewrite (Hdefault eq_refl), E in H. discriminate. }
    unfold updated, updated_tail. rewrite (shouldRemove_negb o).
    destruct (read (schema o)) as [s|] eqn:Es.
    + destruct (safeParse s v) as [data|] eqn:Ep.
      * rewrite get_set_eq. intros ->. exact (Hschema s eq_refl v Ep).
      * destruct (shouldFallback o) eqn:E.
        -- destruct (Hfb eq_refl) as (d & -> & Hd). rewrite get_set_eq. exact Hd.
        -- cbn [negb]. rewrite get_delete_eq. exact (Hrm eq_refl).
    + destruct (truthy v) eqn:Ev; destruct (shouldFallback o) eqn:E; cbn [negb andb].
      * rewrite get_set_eq. apply truthy_true. exact Ev.
      * rewrite get_set_eq. apply truthy_true. exact Ev.
      * destruct (Hfb eq_refl) as (d & -> & Hd). rewrite get_set_eq. exact Hd.
      * rewrite get_delete_eq. exact (Hrm eq_refl).
  - intros _. unfold updated. destruct (truthy v) eqn:Ev.
    + rewrite get_set_eq. apply truthy_true. exact Ev.
    + rewrite get_delete_eq. intros o. discriminate.
Qed.

Lemma correction_after_update (options : option (gmap string UseQueryStateOptions))
    (l : URLSearchParams.t) (key v : string) :
  settles (options ≫= (.!! key)) ->
  correction options true (updated key v (options ≫= (.!! key)) l) key = None.
Proof.
  intros Hs. apply correction_mounted_None.
  exact (updated_entry_settled key v _ l Hs).
Qed.

Lemma settled_after_batch (options : option (gmap string UseQueryStateOptions))
    (l : URLSearchParams.t) (us : list (string * string)) :
  (forall u, u ∈ us -> settles (options ≫= (.!! u.1))) ->
  forall key,
    key ∈ us.*1 \/ correction options true l key = None ->
    correction options true (updated_many options us l) key = None.
Proof.
  induction us as [|u us IH] using rev_ind; intros Hs key Hkey.
  - destruct Hkey as [Hin|Hc]; [|exact Hc]. cbn in Hin. apply elem_of_nil in Hin. destruct Hin.
  - rewrite updated_many_app.
    change (updated_many options [u] (updated_many options us l))
      with (updated u.1 u.2 (options ≫= (.!! u.1)) (updated_many options us l)).
    destruct (decide (u.1 = key)) as [<-|Hne].
    + apply correction_after_update. apply Hs. apply elem_of_app. right.
      apply list_elem_of_singleton. reflexivity.
    + rewrite correction_frame by exact Hne. apply IH.
      * intros u' Hu'. apply Hs. apply elem_of_app. left. exact Hu'.
      * destruct Hkey as [Hin|Hc]; [|right; exact Hc]. left.
        rewrite fmap_app in Hin. apply elem_of_app in Hin as [Hin|Hin]; [exact Hin|].
        cbn in Hin. apply list_elem_of_singleton in Hin. congruence.
Qed.

Lemma omap_all_None {A B} (f : A -> option B) (xs : list A) :
  (forall x, x ∈ xs -> f x = None) -> omap f xs = [].
Proof.
  induction xs as [|x xs IH]; intros H; [reflexivity|]. cbn.
  rewrite (H x) by (apply elem_of_cons; left; reflexivity).
  apply IH. intros y Hy. apply H. apply elem_of_cons. right. exact Hy.
Qed.

(** After the corrections of one pass are applied, a mounted pass finds
    nothing to correct. *)
Lemma corrections_settle (options : option (gmap string UseQueryStateOptions))
    (mounted : bool) (l : URLSearchParams.t) (keys : list string) :
  (forall key, key ∈ keys -> settles (options ≫= (.!! key))) ->
  corrections options true
    (updated_many options (corrections options mounted l keys) l) keys = [].
Proof.
  intros Hs. unfold corrections at 1. apply omap_all_None. intros key Hin.
  apply settled_after_batch.
  - intros u Hu. apply elem_of_corrections in Hu as [Hu _]. apply Hs. exact Hu.
  - destruct (correction options mounted l key) as [u|] eqn:E.
    + left. apply list_elem_of_fmap. exists u. split.
      * rewrite (correction_Some _ _ _ _ _ E). reflexivity.
      * apply elem_of_corrections.
        assert (u.1 = key) as -> by (rewrite (correction_Some _ _ _ _ _ E); reflexivity).
        split; assumption.
    + right. exact (correction_None_mounted _ _ _ _ E).
Qed.

(** When [settles] holds for every tracked key, one pass of the effect of
    [useQueryStrings] is enough: with [searchParams] holding the location the
    pass left the router at, the mount state is set, [getSearchParamsUpdates]
    returns the empty list, and a second pass changes nothing.  Without
    [settles] the passes may go on for ever. *)
Lemma UseQueryStrings_second_pass_settled (keys : list string)
    (options : option (gmap string UseQueryStateOptions)) (path : string)
    (sp sp1 : ref) (w : World) :
  (forall key, key ∈ keys -> settles (options ≫= (.!! key))) ->
  deref (exec (UseQueryStrings.effect keys options path sp) w) sp1 =
    navigate (deref w sp)
      (new_calls w (exec (UseQueryStrings.effect keys options path sp) w)) ->
  isMounted (exec (UseQueryStrings.effect keys options path sp) w) = true
  /\ eval (UseQueryStrings.getSearchParamsUpdates keys options sp1)
       (exec (UseQueryStrings.effect keys options path sp) w) = []
  /\ exec (UseQueryStrings.effect keys options path sp1)
       (exec (UseQueryStrings.effect keys options path sp) w) =
     exec (UseQueryStrings.effect keys options path sp) w.
Proof.
  intros Hs Hloc.
  pose proof (UseQueryStrings_effect_mounts keys options path sp w) as Hm.
  rewrite UseQueryStrings_effect_calls in Hloc.
  set (w1 := exec (UseQueryStrings.effect keys options path sp) w) in *.
  assert (Hl : deref w1 sp1 =
               updated_many options
                 (corrections options (isMounted w) (deref w sp) keys) (deref w sp)).
  { rewrite Hloc.
    destruct (corrections options (isMounted w) (deref w sp) keys); reflexivity. }
  assert (Hnone : corrections options (isMounted w1) (deref w1 sp1) keys = []).
  { rewrite Hm, Hl. apply corrections_settle. exact Hs. }
  split; [exact Hm|]. split.
  - unfold eval. rewrite getSearchParamsUpdates_run. exact Hnone.
  - unfold exec at 1. rewrite UseQueryStrings_effect_run. cbn [snd].
    rewrite Hnone. rewrite <- Hm. apply with_isMounted_same.
Qed.

Lemma UseQueryStrings_second_pass_settled_example :
  let options : gmap string UseQueryStateOptions :=
    {[ "page" := {| defaultValue := Defined "1"; schema := Defined (z_enum ["1"; "2"]);
                    onParseError := Absent |} ]} in
  let w := at_location [("sort", ""); ("page", "7")] in
  let w1 := exec (UseQueryStrings.effect ["page"; "sort"] (Some options) "/docs" 0) w in
  deref w1 1 = [("page", "1")]
  /\ eval (UseQueryStrings.getSearchParamsUpdates ["page"; "sort"] (Some options) 1) w1 = []
  /\ exec (UseQueryStrings.effect ["page"; "sort"] (Some options) "/docs" 1) w1 = w1.
Proof.
  intros options w w1. split; [reflexivity|].
  refine (proj2 (UseQueryStrings_second_pass_settled ["page"; "sort"] (Some options) "/docs" 0 1 w
                   _ eq_refl)).
  intros key Hin.
  apply elem_of_cons in Hin as [->|Hin].
  - split.
    + intros s [= <-] v Hv. destruct v as [|c v]; [discriminate Hv|].
      unfold z_enum in Hv. cbn [safeParse] in Hv.
      destruct (existsb (String.eqb (String c v)) ["1"; "2"]); discriminate Hv.
    + reflexivity.
  - apply list_elem_of_singleton in Hin. subst key. exact I.
Defined.

(** C6 (the code does not settle).  Two inputs on which the passes of the
    effect of [useQueryStrings] never reach a fixed point.

    With [{ defaultValue: "a", onParseError: "remove" }] and a location
    without the key, the pass corrects the key with [""], the update deletes
    it, and the location is as before: the next pass, with the mount state
    set, finds the same correction and calls [router.replace] with the same
    query, and so does the pass after it.  The comment on [defaultValue]
    makes it the value of a missing parameter, and the one on [onParseError]
    speaks of failed validations only.

    With [{ schema: z.string() }], no default value, and the key in the
    location with the empty value, the pass corrects the key with [""], the
    schema accepts it, the update sets the key to [""] again, and every later
    pass does the same.  The comment on [defaultValue] has empty values
    removed when there is no default value. *)
Theorem C6_corrections_repeat_on_every_pass :
  let removing : gmap string UseQueryStateOptions :=
    {[ "k" := {| defaultValue := Defined "a"; schema := Absent;
                 onParseError := Defined Remove |} ]} in
  let accepting : gmap string UseQueryStateOptions :=
    {[ "k" := {| defaultValue := Absent; schema := Defined z_string;
                 onParseError := Absent |} ]} in
  let w := at_location [] in
  let w1 := exec (UseQueryStrings.effect ["k"] (Some removing) "/docs" 0) w in
  let w2 := exec (UseQueryStrings.effect ["k"] (Some removing) "/docs" 1) w1 in
  let v := at_location [("k", "")] in
  let v1 := exec (UseQueryStrings.effect ["k"] (Some accepting) "/docs" 0) v in
  let v2 := exec (UseQueryStrings.effect ["k"] (Some accepting) "/docs" 1) v1 in
  (isMounted w1 = true
   /\ deref w1 1 = navigate (deref w 0) (new_calls w w1)
   /\ eval (UseQueryStrings.getSearchParamsUpdates ["k"] (Some removing) 1) w1 = [("k", "")]
   /\ new_calls w1 w2 = [{| pathname := "/docs"; search := [] |}]
   /\ deref w2 2 = navigate (deref w1 1) (new_calls w1 w2)
   /\ deref w2 2 = deref w1 1
   /\ eval (UseQueryStrings.getSearchParamsUpdates ["k"] (Some removing) 2) w2 = [("k", "")]
   /\ new_calls w2 (exec (UseQueryStrings.effect ["k"] (Some removing) "/docs" 2) w2)
       = [{| pathname := "/docs"; search := [] |}])
  /\ (isMounted v1 = true
      /\ deref v1 1 = navigate (deref v 0) (new_calls v v1)
      /\ eval (UseQueryStrings.getSearchParamsUpdates ["k"] (Some accepting) 1) v1 = [("k", "")]
      /\ new_calls v1 v2 = [{| pathname := "/docs"; search := [("k", "")] |}]
      /\ deref v2 2 = navigate (deref v1 1) (new_calls v1 v2)
      /\ deref v2 2 = deref v1 1
      /\ eval (UseQueryStrings.getSearchParamsUpdates ["k"] (Some accepting) 2) v2 = [("k", "")]
      /\ new_calls v2 (exec (UseQueryStrings.effect ["k"] (Some accepting) "/docs" 2) v2)
          = [{| pathname := "/docs"; search := [("k", "")] |}]).
Proof. vm_compute. repeat split; reflexivity. Qed.

(** ** The empty string as default value *)









(** ** The scenarios of the documentation *)

(** [useQueryString("q")] on [?q=]: the key is removed. *)
Example scenario_empty_value_removed :
  replaced (exec (UseQueryString.effect "q" None "/docs" 0) (at_location [("q", "")]))
  = [{| pathname := "/docs"; search := [] |}].
Proof. reflexivity. Qed.

(** [useQueryString("page", { defaultValue: "10" })] on a location without
    [page]: the default is written. *)
Example scenario_default_written :
  replaced (exec (UseQueryString.effect "page"
                    (Some {| defaultValue := Defined "10"; schema := Absent;
                             onParseError := Absent |}) "/docs" 0) (at_location []))
  = [{| pathname := "/docs"; search := [("page", "10")] |}].
Proof. reflexivity. Qed.

(** A schema and no default, on [?n=7]; the setter is called with ["abc"],
    the schema fails, and as there is no default the key is removed. *)
Example scenario_setter_rejected_value :
  replaced (exec (UseQueryString.setQueryString "n"
                    (Some {| defaultValue := Absent; schema := Defined (z_enum ["7"; "8"]);
                             onParseError := Absent |}) "/docs" 0 "abc")
              (at_location [("n", "7")]))
  = [{| pathname := "/docs"; search := [] |}].
Proof. reflexivity. Qed.

(** [useQueryStrings(["page", "sort"], { page: { defaultValue: "1" } })] on
    [?sort=]: one call, with the default of [page] and without [sort]. *)
Example scenario_two_keys_one_replace :
  replaced (exec (UseQueryStrings.effect ["page"; "sort"]
                    (Some {[ "page" := {| defaultValue := Defined "1"; schema := Absent;
                                          onParseError := Absent |} ]}) "/docs" 0)
              (at_location [("sort", "")]))
  = [{| pathname := "/docs"; search := [("page", "1")] |}].
Proof. vm_compute. reflexivity. Qed.

(** * Further properties of the code *)

(** ** More on the list of pairs *)

Lemma delete_delete (l : URLSearchParams.t) (name : string) :
  URLSearchParams.delete (URLSearchParams.delete l name) name = URLSearchParams.delete l name.
Proof.
  induction l as [|[k v] l IH]; simpl; [reflexivity|].
  destruct (String.eqb k name) eqn:E; simpl; [exact IH|].
  rewrite E. simpl. rewrite IH. reflexivity.
Qed.

Lemma delete_set (l : URLSearchParams.t) (name value : string) :
  URLSearchParams.delete (URLSearchParams.set l name value) name = URLSearchParams.delete l name.
Proof.
  induction l as [|[k v] l IH]; simpl.
  - rewrite eqb_refl'. reflexivity.
  - destruct (String.eqb k name) eqn:E; simpl; rewrite E; simpl.
    + apply delete_delete.
    + rewrite IH. reflexivity.
Qed.

Lemma set_set (l : URLSearchParams.t) (name value value' : string) :
  URLSearchParams.set (URLSearchParams.set l name value) name value' =
  URLSearchParams.set l name value'.
Proof.
  induction l as [|[k v] l IH]; simpl.
  - rewrite eqb_refl'. reflexivity.
  - destruct (String.eqb k name) eqn:E; simpl; rewrite E.
    + rewrite delete_delete. reflexivity.
    + rewrite IH. reflexivity.
Qed.

(** The pairs of a given name. *)
Lemma named_delete (l : URLSearchParams.t) (name : string) :
  List.filter (fun p => String.eqb p.1 name) (URLSearchParams.delete l name) = [].
Proof.
  induction l as [|[k v] l IH]; simpl; [reflexivity|].
  destruct (String.eqb k name) eqn:E; simpl; [exact IH|].
  rewrite E. exact IH.
Qed.

Lemma named_set (l : URLSearchParams.t) (name value : string) :
  List.filter (fun p => String.eqb p.1 name) (URLSearchParams.set l name value) =
  [(name, value)].
Proof.
  induction l as [|[k v] l IH]; simpl.
  - rewrite eqb_refl'. reflexivity.
  - destruct (String.eqb k name) eqn:E; simpl; rewrite E.
    + rewrite named_delete. apply String.eqb_eq in E. subst k. reflexivity.
    + exact IH.
Qed.

(** [updated] is a [set] or a [delete] that does not look at the pairs. *)
Lemma updated_cases (key value : string) (options : option UseQueryStateOptions) :
  (exists x, forall l, updated key value options l = URLSearchParams.set l key x)
  \/ (forall l, updated key value options l = URLSearchParams.delete l key).
Proof.
  destruct options as [o|].
  - policy_cases o value; eauto.
  - unfold updated. destruct (truthy value); eauto.
Qed.

Lemma exec_updateQueryState (key value : string) (r : ref)
    (options : option UseQueryStateOptions) (w : World) :
  exec (updateQueryState key value r options) w =
  with_heap (alter (updated key value options) r (heap w)) w.
Proof. unfold exec. rewrite updateQueryState_run. reflexivity. Qed.

Lemma deref_updateQueryState (key value : string) (r : ref)
    (options : option UseQueryStateOptions) (w : World) :
  is_Some (heap w !! r) ->
  deref (exec (updateQueryState key value r options) w) r =
  updated key value options (deref w r).
Proof.
  intros Hr. rewrite exec_updateQueryState. apply deref_alter_eq. exact Hr.
Qed.

(** ** [updateQueryState]: what every call does *)

(** X1.  Every call of [updateQueryState] ends in [searchParams.set] or in
    [searchParams.delete] on the key: the last [if (value)], which has no
    [else], is never left without writing. *)
Theorem X1_updateQueryState_always_writes (key value : string) (r : ref)
    (options : option UseQueryStateOptions) :
  (exists x, updateQueryState key value r options = sp_set r key x)
  \/ updateQueryState key value r options = sp_delete r key.
Proof.
  destruct options as [o|]; unfold updateQueryState, updateQueryState_tail.
  - rewrite (shouldRemove_negb o).
    destruct (read (schema o)) as [s|];
      [destruct (safeParse s value)|];
      destruct (shouldFallback o); destruct (truthy value); cbn [negb andb]; eauto.
  - destruct (truthy value); eauto.
Qed.

(** X2.  A call of [updateQueryState] on an existing object leaves at most
    one pair with the name of the key (repeated pairs of that name are
    merged or removed), and every pair of another name where it was: the
    pairs of the other names are the same, in the same order, repeated ones
    included. *)
Theorem X2_updateQueryState_touches_one_name (key value : string) (r : ref)
    (options : option UseQueryStateOptions) (w : World) :
  is_Some (heap w !! r) ->
  length (List.filter (fun p => String.eqb p.1 key)
            (deref (exec (updateQueryState key value r options) w) r)) <= 1
  /\ URLSearchParams.delete (deref (exec (updateQueryState key value r options) w) r) key =
     URLSearchParams.delete (deref w r) key.
Proof.
  intros Hr. rewrite (deref_updateQueryState _ _ _ _ _ Hr).
  destruct (updated_cases key value options) as [[x H]|H]; rewrite H.
  - rewrite named_set, delete_set. cbn. split; [lia | reflexivity].
  - rewrite named_delete, delete_delete. cbn. split; [lia | reflexivity].
Qed.

Lemma X2_updateQueryState_touches_one_name_witness :
  let w := at_location [("step", "goal"); ("tag", "a"); ("step", "persona"); ("tag", "b")] in
  deref (exec (updateQueryState "step" "plan" 0 None) w) 0
  = [("step", "plan"); ("tag", "a"); ("tag", "b")]
  /\ URLSearchParams.delete (deref (exec (updateQueryState "step" "plan" 0 None) w) 0) "step"
     = [("tag", "a"); ("tag", "b")].
Proof.
  intros w. split; [reflexivity|].
  refine (eq_trans (proj2 (X2_updateQueryState_touches_one_name "step" "plan" 0 None w _)) _).
  - eexists; reflexivity.
  - reflexivity.
Defined.

(** X3.  Calling [updateQueryState] a second time with the same key, value
    and options changes nothing. *)
Theorem X3_updateQueryState_idempotent (key value : string) (r : ref)
    (options : option UseQueryStateOptions) (w : World) :
  exec (updateQueryState key value r options)
    (exec (updateQueryState key value r options) w) =
  exec (updateQueryState key value r options) w.
Proof.
  rewrite !exec_updateQueryState. unfold with_heap. cbn [heap isMounted replaced].
  f_equal. rewrite alter_alter_eq. apply alter_ext. intros l _. cbn.
  destruct (updated_cases key value options) as [[x H]|H]; rewrite !H.
  - apply set_set.
  - apply delete_delete.
Qed.

(** X4.  When there is no schema, or the schema never succeeds with the
    empty string, [updateQueryState] never leaves the key with the empty
    value: the key is absent or has a non-empty value. *)
Theorem X4_updateQueryState_no_empty_value (key value : string) (r : ref)
    (options : option UseQueryStateOptions) (w : World) :
  (forall o s, options = Some o -> read (schema o) = Some s -> never_empty s) ->
  is_Some (heap w !! r) ->
  eval (sp_get r key) (exec (updateQueryState key value r options) w) <> Some "".
Proof.
  intros Hschema Hr. unfold eval, sp_get. cbn [fst].
  rewrite (deref_updateQueryState _ _ _ _ _ Hr).
  destruct options as [o|].
  - unfold updated, updated_tail. rewrite (shouldRemove_negb o).
    assert (Hfb : shouldFallback o = true -> USVString (read (defaultValue o)) <> "").
    { unfold shouldFallback. intros H. apply andb_true_iff in H as [_ H].
      destruct (read (defaultValue o)) as [d|]; [|discriminate].
      cbn. apply truthy_true. exact H. }
    destruct (read (schema o)) as [s|] eqn:Es.
    + destruct (safeParse s value) as [data|] eqn:Ep.
      * rewrite get_set_eq. intros [= ->]. exact (Hschema o s eq_refl Es value Ep).
      * destruct (shouldFallback o); cbn [negb].
        -- rewrite get_set_eq. intros [= H]. exact (Hfb eq_refl H).
        -- rewrite get_delete_eq. discriminate.
    + destruct (truthy value) eqn:Ev; destruct (shouldFallback o); cbn [negb andb];
        rewrite ?get_set_eq, ?get_delete_eq; try discriminate.
      * intros [= ->]. discriminate Ev.
      * intros [= ->]. discriminate Ev.
      * intros [= H]. exact (Hfb eq_refl H).
  - unfold updated. destruct (truthy value) eqn:Ev;
      rewrite ?get_set_eq, ?get_delete_eq; [|discriminate].
    intros [= ->]. discriminate Ev.
Qed.

Lemma X4_updateQueryState_no_empty_value_witness :
  eval (sp_get 0 "q")
    (exec (updateQueryState "q" ""  0
             (Some {| defaultValue := Undefined; schema := Absent; onParseError := Absent |}))
       (at_location [("q", "rocq")])) <> Some "".
Proof.
  apply X4_updateQueryState_no_empty_value.
  - intros o s [= <-] Hs. discriminate Hs.
  - eexists; reflexivity.
Defined.

(** ** Batches *)

Lemma get_updated_congr (key value : string) (options : option UseQueryStateOptions)
    (l l' : URLSearchParams.t) :
  (forall k, URLSearchParams.get l k = URLSearchParams.get l' k) ->
  forall k, URLSearchParams.get (updated key value options l) k =
            URLSearchParams.get (updated key value options l') k.
Proof.
  intros H k. destruct (decide (key = k)) as [<-|Hne].
  - apply get_updated_indep.
  - rewrite !get_updated_ne by exact Hne. apply H.
Qed.

Lemma get_updated_many_congr (options : option (gmap string UseQueryStateOptions))
    (us : list (string * string)) (l l' : URLSearchParams.t) :
  (forall k, URLSearchParams.get l k = URLSearchParams.get l' k) ->
  forall k, URLSearchParams.get (updated_many options us l) k =
            URLSearchParams.get (updated_many options us l') k.
Proof.
  revert l l'. induction us as [|u us IH]; intros l l' H; [exact H|].
  change (forall k,
    URLSearchParams.get
      (updated_many options us (updated u.1 u.2 (options ≫= (.!! u.1)) l)) k =
    URLSearchParams.get
      (updated_many options us (updated u.1 u.2 (options ≫= (.!! u.1)) l')) k).
  apply IH. apply get_updated_congr. exact H.
Qed.

Lemma deref_createSearchParamsWithMany (updates : list (string * string)) (sp : ref)
    (options : option (gmap string UseQueryStateOptions)) (w : World) :
  deref (exec (createSearchParamsWithMany updates sp options) w)
    (eval (createSearchParamsWithMany updates sp options) w) =
  updated_many options updates (deref w sp).
Proof.
  unfold exec, eval. rewrite createSearchParamsWithMany_run. cbn [fst snd].
  apply deref_fresh_insert.
Qed.

(** X5.  In a batch, two neighbouring updates of different keys may change
    places: [createSearchParamsWithMany] returns an object in which every key
    has the same value (the order of the pairs may differ). *)
Theorem X5_updates_of_different_keys_commute (us1 us2 : list (string * string))
    (a b : string * string) (sp : ref)
    (options : option (gmap string UseQueryStateOptions)) (w : World) (k : string) :
  a.1 <> b.1 ->
  URLSearchParams.get
    (deref (exec (createSearchParamsWithMany (us1 ++ a :: b :: us2) sp options) w)
       (eval (createSearchParamsWithMany (us1 ++ a :: b :: us2) sp options) w)) k =
  URLSearchParams.get
    (deref (exec (createSearchParamsWithMany (us1 ++ b :: a :: us2) sp options) w)
       (eval (createSearchParamsWithMany (us1 ++ b :: a :: us2) sp options) w)) k.
Proof.
  intros Hne. rewrite !deref_createSearchParamsWithMany, !updated_many_app.
  set (l := updated_many options us1 (deref w sp)).
  change (updated_many options (a :: b :: us2) l)
    with (updated_many options us2
            (updated b.1 b.2 (options ≫= (.!! b.1))
               (updated a.1 a.2 (options ≫= (.!! a.1)) l))).
  change (updated_many options (b :: a :: us2) l)
    with (updated_many options us2
            (updated a.1 a.2 (options ≫= (.!! a.1))
               (updated b.1 b.2 (options ≫= (.!! b.1)) l))).
  apply get_updated_many_congr. clear k. intros k.
  destruct (decide (b.1 = k)) as [<-|Hb].
  - rewrite (get_updated_ne a.1 b.1) by exact Hne.
    rewrite (get_updated_indep b.1 b.2 _ _ l). reflexivity.
  - rewrite (get_updated_ne b.1 k) by exact Hb.
    destruct (decide (a.1 = k)) as [<-|Ha].
    + apply get_updated_indep.
    + rewrite !(get_updated_ne a.1 k) by exact Ha.
      rewrite (get_updated_ne b.1 k) by exact Hb. reflexivity.
Qed.

Lemma X5_updates_of_different_keys_commute_witness :
  let w := at_location [("q", "rocq")] in
  URLSearchParams.get
    (deref (exec (createSearchParamsWithMany [("page", "2"); ("sort", "asc")] 0 None) w)
       (eval (createSearchParamsWithMany [("page", "2"); ("sort", "asc")] 0 None) w)) "sort" =
  URLSearchParams.get
    (deref (exec (createSearchParamsWithMany [("sort", "asc"); ("page", "2")] 0 None) w)
       (eval (createSearchParamsWithMany [("sort", "asc"); ("page", "2")] 0 None) w)) "sort".
Proof.
  intros w.
  apply (X5_updates_of_different_keys_commute [] [] ("page", "2") ("sort", "asc") 0 None w "sort").
  discriminate.
Defined.

(** ** [getSearchParamsUpdates] *)

Lemma corrections_keys_sublist (options : option (gmap string UseQueryStateOptions))
    (mounted : bool) (l : URLSearchParams.t) (keys : list string) :
  (corrections options mounted l keys).*1 `sublist_of` keys.
Proof.
  unfold corrections. induction keys as [|key keys IH]; cbn; [constructor|].
  destruct (correction options mounted l key) as [u|] eqn:E; cbn.
  - rewrite (correction_Some _ _ _ _ _ E). cbn. apply sublist_skip. exact IH.
  - apply sublist_cons. exact IH.
Qed.

(** X6.  [getSearchParamsUpdates] changes nothing.  The keys of the list it
    returns are keys of [keys], in the order of [keys] and without a key
    more often than [keys] has it; and the value that goes with a key is the
    value the key has in the location, or [""] if it has none. *)
Theorem X6_getSearchParamsUpdates_reads_only (keys : list string)
    (options : option (gmap string UseQueryStateOptions)) (sp : ref) (w : World) :
  exec (UseQueryStrings.getSearchParamsUpdates keys options sp) w = w
  /\ (eval (UseQueryStrings.getSearchParamsUpdates keys options sp) w).*1 `sublist_of` keys
  /\ (forall key value,
        (key, value) ∈ eval (UseQueryStrings.getSearchParamsUpdates keys options sp) w ->
        value = default "" (eval (sp_get sp key) w)).
Proof.
  unfold exec, eval. rewrite getSearchParamsUpdates_run. cbn [fst snd].
  split; [reflexivity|]. split; [apply corrections_keys_sublist|].
  intros key value Hin. apply elem_of_corrections in Hin as [_ Hc]. cbn [fst] in Hc.
  apply correction_Some in Hc. injection Hc as Hv. exact Hv.
Qed.

Lemma X6_getSearchParamsUpdates_reads_only_witness :
  let options : gmap string UseQueryStateOptions :=
    {[ "tag" := {| defaultValue := Defined "all"; schema := Absent; onParseError := Absent |} ]} in
  ("tag", "new") ∈ eval (UseQueryStrings.getSearchParamsUpdates ["q"; "tag"] (Some options) 0)
                     (at_location [("tag", "new")])
  /\ "new" = default "" (eval (sp_get 0 "tag") (at_location [("tag", "new")])).
Proof.
  intros options.
  assert (Hin : ("tag", "new") ∈
            eval (UseQueryStrings.getSearchParamsUpdates ["q"; "tag"] (Some options) 0)
              (at_location [("tag", "new")])).
  { vm_compute. apply list_elem_of_singleton. reflexivity. }
  split; [exact Hin|].
  exact (proj2 (proj2 (X6_getSearchParamsUpdates_reads_only ["q"; "tag"] (Some options) 0
                         (at_location [("tag", "new")]))) "tag" "new" Hin).
Defined.

Lemma Object_keys_length_0 (o : UseQueryStateOptions) :
  Nat.eqb (Object_keys_length o) 0 = true ->
  hasDefaultValue o = false /\ hasSchema o = false.
Proof.
  unfold Object_keys_length, hasDefaultValue, hasSchema.
  destruct (defaultValue o); destruct (schema o); destruct (onParseError o);
    cbn; intros H; try discriminate H; auto.
Qed.

(** When does a mounted pass correct a key. *)
Lemma correction_mounted_iff (options : option (gmap string UseQueryStateOptions))
    (l : URLSearchParams.t) (key : string) (u : string * string) :
  correction options true l key = Some u <->
  u = (key, "")
  /\ (URLSearchParams.get l key = Some ""
      \/ (URLSearchParams.get l key = None
          /\ exists o, options ≫= (.!! key) = Some o /\ hasDefaultValue o = true)).
Proof.
  unfold correction, UseQueryString.outOfCompliance. rewrite has_get.
  cbn [negb andb orb].
  destruct (URLSearchParams.get l key) as [x|] eqn:Eg.
  - cbn [truthy_maybe negb andb orb default].
    assert (Hx : forall opt : option (string * string),
              (if negb (truthy x) then Some (key, x) else opt) = Some u ->
              opt = None -> u = (key, "") /\ x = "").
    { intros opt H ->. destruct (truthy x) eqn:Et; cbn in H; [discriminate|].
      apply truthy_false in Et. subst x. split; congruence. }
    split.
    + intros H.
      assert (Hu : u = (key, "") /\ x = "").
      { destruct (options ≫= (.!! key)) as [o|].
        - destruct (Nat.eqb (Object_keys_length o) 0).
          + destruct (truthy x) eqn:Et; cbn in H; [discriminate|].
            apply truthy_false in Et. subst x. split; congruence.
          + rewrite orb_false_r in H. exact (Hx None H eq_refl).
        - destruct (truthy x) eqn:Et; cbn in H; [discriminate|].
          apply truthy_false in Et. subst x. split; congruence. }
      destruct Hu as [-> ->]. split; [reflexivity | left; reflexivity].
    + intros [-> [[= ->]|[Hn _]]]; [|discriminate]. cbn.
      destruct (options ≫= (.!! key)) as [o|]; [|reflexivity].
      destruct (Nat.eqb (Object_keys_length o) 0); reflexivity.
  - cbn [truthy_maybe negb andb orb default]. split.
    + intros H. destruct (options ≫= (.!! key)) as [o|]; [|discriminate].
      destruct (Nat.eqb (Object_keys_length o) 0); [discriminate|].
      destruct (hasDefaultValue o) eqn:Eh; [|discriminate].
      injection H as <-. split; [reflexivity|]. right. split; [reflexivity|].
      exists o. split; [reflexivity | exact Eh].
    + intros [-> [H|[_ (o & Ho & Hd)]]]; [discriminate|]. rewrite Ho.
      destruct (Nat.eqb (Object_keys_length o) 0) eqn:E0.
      * apply Object_keys_length_0 in E0 as [E0 _]. congruence.
      * rewrite Hd. reflexivity.
Qed.

(** X7.  Once the mount state is set, [getSearchParamsUpdates] corrects a
    tracked key in two cases only: the key is in the location with the empty
    value, or the key is not in the location and has a (non-empty) default
    value.  The correction always carries [""].  So a key with a non-empty
    value is not corrected, whatever its schema would say of the value. *)
Theorem X7_mounted_pass_corrections (keys : list string)
    (options : option (gmap string UseQueryStateOptions)) (sp : ref) (w : World)
    (key value : string) :
  isMounted w = true ->
  ((key, value) ∈ eval (UseQueryStrings.getSearchParamsUpdates keys options sp) w <->
   key ∈ keys /\ value = ""
   /\ (eval (sp_get sp key) w = Some ""
       \/ (eval (sp_get sp key) w = None
           /\ exists o, options ≫= (.!! key) = Some o /\ hasDefaultValue o = true))).
Proof.
  intros Hm. unfold eval. rewrite getSearchParamsUpdates_run. cbn [fst sp_get].
  rewrite elem_of_corrections, Hm. cbn [fst]. rewrite correction_mounted_iff.
  split.
  - intros (Hin & [= ->] & H). auto.
  - intros (Hin & -> & H). auto.
Qed.

Lemma X7_mounted_pass_corrections_witness :
  let options : gmap string UseQueryStateOptions :=
    {[ "sort" := {| defaultValue := Absent; schema := Defined (z_enum ["asc"; "desc"]);
                    onParseError := Absent |} ]} in
  let w := {| heap := {[ 0 := [("sort", "sideways")] ]}; isMounted := true; replaced := [] |} in
  ~ ("sort", "sideways") ∈ eval (UseQueryStrings.getSearchParamsUpdates ["sort"] (Some options) 0) w.
Proof.
  intros options w Hin.
  apply (X7_mounted_pass_corrections ["sort"] (Some options) 0 w "sort" "sideways" eq_refl)
    in Hin as (_ & Hv & _).
  discriminate Hv.
Defined.

(** ** The first pass *)

Lemma Object_keys_length_schema (o : UseQueryStateOptions) (s : ZodType) :
  read (schema o) = Some s -> Nat.eqb (Object_keys_length o) 0 = false.
Proof.
  unfold Object_keys_length.
  destruct (defaultValue o); destruct (schema o); cbn; congruence.
Qed.

Lemma correction_first_pass_schema (options : option (gmap string UseQueryStateOptions))
    (l : URLSearchParams.t) (key : string) (o : UseQueryStateOptions) (s : ZodType) :
  options ≫= (.!! key) = Some o ->
  read (schema o) = Some s -> hasDefaultValue o = false ->
  correction options false l key = Some (key, default "" (URLSearchParams.get l key)).
Proof.
  intros Hopt Hs Hd. unfold correction. rewrite Hopt.
  rewrite (Object_keys_length_schema o s Hs).
  unfold UseQueryString.outOfCompliance, hasSchema. rewrite Hd, Hs. cbn [negb andb orb].
  reflexivity.
Qed.

Lemma updated_schema_no_default (key v : string) (o : UseQueryStateOptions) (s : ZodType)
    (l : URLSearchParams.t) :
  read (schema o) = Some s -> hasDefaultValue o = false ->
  URLSearchParams.get (updated key v (Some o) l) key =
  match safeParse s v with
  | ParseSuccess data => Some data
  | ParseFailure => None
  end.
Proof.
  intros Hs Hd. unfold updated. rewrite Hs.
  assert (Hf : shouldFallback o = false).
  { unfold shouldFallback. unfold hasDefaultValue in Hd. rewrite Hd. apply andb_false_r. }
  rewrite Hf, (shouldRemove_negb o), Hf. cbn [negb].
  destruct (safeParse s v); [apply get_set_eq | apply get_delete_eq].
Qed.

(** X8.  On the first pass (mount state not set) a tracked key with a
    schema and no (non-empty) default value is always corrected, with the
    value it has in the location or [""]: there is one call of
    [router.replace], and in its query the key has the string the schema
    returns for that value, or is absent if the schema rejects it.  This
    holds for [useQueryStrings] and for [useQueryString]. *)
Theorem X8_first_pass_validates (key : string) (o : UseQueryStateOptions) (s : ZodType)
    (path : string) (sp : ref) (w : World) :
  isMounted w = false ->
  read (schema o) = Some s ->
  hasDefaultValue o = false ->
  (forall keys options,
     key ∈ keys -> options ≫= (.!! key) = Some o ->
     exists href,
       new_calls w (exec (UseQueryStrings.effect keys options path sp) w) = [href]
       /\ URLSearchParams.get (search href) key =
          match safeParse s (default "" (eval (sp_get sp key) w)) with
          | ParseSuccess data => Some data
          | ParseFailure => None
          end)
  /\ (exists href,
        new_calls w (exec (UseQueryString.effect key (Some o) path sp) w) = [href]
        /\ URLSearchParams.get (search href) key =
           match safeParse s (default "" (eval (sp_get sp key) w)) with
           | ParseSuccess data => Some data
           | ParseFailure => None
           end).
Proof.
  intros Hm Hs Hd. unfold eval, sp_get. cbn [fst]. split.
  - intros keys options Hin Hopt.
    pose proof (correction_first_pass_schema options (deref w sp) key o s Hopt Hs Hd) as Hc.
    assert (Hmem : (key, default "" (URLSearchParams.get (deref w sp) key))
                   ∈ corrections options (isMounted w) (deref w sp) keys).
    { rewrite Hm. apply elem_of_corrections. split; assumption. }
    rewrite UseQueryStrings_effect_calls.
    pose proof (get_after_corrections _ _ _ _ _ _ Hmem) as Hget.
    rewrite Hopt, (updated_schema_no_default key _ o s _ Hs Hd) in Hget.
    destruct (corrections options (isMounted w) (deref w sp) keys) as [|u us] eqn:E.
    + apply elem_of_nil in Hmem. destruct Hmem.
    + eexists. split; [reflexivity|]. exact Hget.
  - unfold exec. rewrite UseQueryString_effect_run. cbn [snd fmap option_fmap option_map].
    rewrite Hm.
    rewrite (correction_first_pass_schema (Some {[key := o]}) (deref w sp) key o s);
      [|cbn; apply lookup_singleton_eq|exact Hs|exact Hd].
    rewrite new_calls_snoc. eexists. split; [reflexivity|]. cbn [search snd].
    apply (updated_schema_no_default key _ o s _ Hs Hd).
Qed.

Lemma X8_first_pass_validates_witness :
  let o := {| defaultValue := Absent; schema := Defined (z_enum ["asc"; "desc"]);
              onParseError := Absent |} in
  let w := at_location [("sort", "sideways"); ("q", "rocq")] in
  exists href,
    new_calls w (exec (UseQueryString.effect "sort" (Some o) "/docs" 0) w) = [href]
    /\ URLSearchParams.get (search href) "sort" = None.
Proof.
  intros o w.
  exact (proj2 (X8_first_pass_validates "sort" o (z_enum ["asc"; "desc"]) "/docs" 0 w
                  eq_refl eq_refl eq_refl)).
Defined.

(** ** A key at its default value *)

Lemma correction_at_default (options : option (gmap string UseQueryStateOptions))
    (mounted : bool) (l : URLSearchParams.t) (key D : string) (o : UseQueryStateOptions) :
  options ≫= (.!! key) = Some o ->
  read (defaultValue o) = Some D -> D <> "" ->
  URLSearchParams.get l key = Some D ->
  correction options mounted l key = None.
Proof.
  intros Hopt HD Hne Hget. unfold correction. rewrite Hopt.
  rewrite (Object_keys_length_default o D HD).
  unfold UseQueryString.outOfCompliance, hasDefaultValue. rewrite has_get, Hget, HD.
  cbn [truthy_maybe strict_neq]. rewrite (proj2 (truthy_true D) Hne), eqb_refl'.
  cbn [negb andb orb]. rewrite !andb_false_r. reflexivity.
Qed.

(** X9.  A key whose value in the location is its (non-empty) default value
    is never corrected, on the first pass or later, and its schema is not
    run: [getSearchParamsUpdates] has no correction for it, and the effect of
    [useQueryString] does nothing at all. *)
Theorem X9_key_at_default_left_alone (key D : string) (o : UseQueryStateOptions)
    (path : string) (sp : ref) (w : World) :
  read (defaultValue o) = Some D ->
  D <> "" ->
  eval (sp_get sp key) w = Some D ->
  (forall keys options,
     options ≫= (.!! key) = Some o ->
     key ∉ (eval (UseQueryStrings.getSearchParamsUpdates keys options sp) w).*1)
  /\ exec (UseQueryString.effect key (Some o) path sp) w = w.
Proof.
  intros HD Hne Hget. unfold eval, sp_get in Hget. cbn [fst] in Hget. split.
  - intros keys options Hopt. unfold eval. rewrite getSearchParamsUpdates_run. cbn [fst].
    intros Hin. apply list_elem_of_fmap in Hin as (u & Hu & Hin).
    apply elem_of_corrections in Hin as [_ Hc]. rewrite <- Hu in Hc.
    rewrite (correction_at_default options _ _ key D o Hopt HD Hne Hget) in Hc.
    discriminate Hc.
  - unfold exec. rewrite UseQueryString_effect_run. cbn [snd fmap option_fmap option_map].
    rewrite (correction_at_default (Some {[key := o]}) _ _ key D o);
      [reflexivity|cbn; apply lookup_singleton_eq|exact HD|exact Hne|exact Hget].
Qed.

Lemma X9_key_at_default_left_alone_witness :
  let o := {| defaultValue := Defined "draft"; schema := Defined (z_enum ["open"; "closed"]);
              onParseError := Absent |} in
  exec (UseQueryString.effect "status" (Some o) "/docs" 0) (at_location [("status", "draft")])
  = at_location [("status", "draft")].
Proof.
  intros o.
  refine (proj2 (X9_key_at_default_left_alone "status" "draft" o "/docs" 0
                   (at_location [("status", "draft")]) eq_refl _ eq_refl)).
  discriminate.
Defined.

(** ** The two hooks side by side *)

Lemma for_key_lookup (key : string) (options : option UseQueryStateOptions) :
  for_key key options ≫= (.!! key) = options.
Proof.
  destruct options as [o|]; cbn; [apply lookup_singleton_eq | reflexivity].
Qed.

Lemma UseQueryString_setQueryString_run (key : string) (options : option UseQueryStateOptions)
    (path : string) (sp : ref) (value : string) (w : World) :
  UseQueryString.setQueryString key options path sp value w =
  (tt, {| heap := <[fresh (dom (heap w)) := updated key value options (deref w sp)]> (heap w);
          isMounted := isMounted w;
          replaced := replaced w ++
            [{| pathname := path; search := updated key value options (deref w sp) |}] |}).
Proof.
  unfold UseQueryString.setQueryString, bind.
  rewrite createSearchParams_run. cbn [fst snd].
  unfold sp_toString. cbn [fst snd]. rewrite deref_fresh_insert. reflexivity.
Qed.

Lemma UseQueryStrings_setQueryString_run (options : option (gmap string UseQueryStateOptions))
    (path : string) (sp : ref) (key value : string) (w : World) :
  UseQueryStrings.setQueryString options path sp key value w =
  (tt, {| heap := <[fresh (dom (heap w)) :=
                      updated key value (options ≫= (.!! key)) (deref w sp)]> (heap w);
          isMounted := isMounted w;
          replaced := replaced w ++
            [{| pathname := path;
                search := updated key value (options ≫= (.!! key)) (deref w sp) |}] |}).
Proof.
  unfold UseQueryStrings.setQueryString.
  rewrite updateSearchParams_run by discriminate. reflexivity.
Qed.

(** X10.  [useQueryStrings] on the one key [[key]] and [useQueryString] on
    [key], with the same options for the key, make the same calls of
    [router.replace] and leave the same objects; they differ in the mount
    state only, which [useQueryStrings] always sets. *)
Theorem X10_one_key_same_calls (key : string) (options : option UseQueryStateOptions)
    (path : string) (sp : ref) (w : World) :
  replaced (exec (UseQueryStrings.effect [key] (for_key key options) path sp) w) =
  replaced (exec (UseQueryString.effect key options path sp) w)
  /\ heap (exec (UseQueryStrings.effect [key] (for_key key options) path sp) w) =
     heap (exec (UseQueryString.effect key options path sp) w)
  /\ isMounted (exec (UseQueryStrings.effect [key] (for_key key options) path sp) w) = true.
Proof.
  unfold exec. rewrite UseQueryStrings_effect_run, UseQueryString_effect_run. cbn [snd].
  fold (for_key key options). unfold corrections. cbn [omap list_omap].
  destruct (correction (for_key key options) (isMounted w) (deref w sp) key) as [u|] eqn:E.
  - assert (Hu : updated_many (for_key key options) [u] (deref w sp) =
                 updated key u.2 options (deref w sp)).
    { rewrite (correction_Some _ _ _ _ _ E). cbn [updated_many foldl fst snd].
      rewrite for_key_lookup. reflexivity. }
    rewrite Hu. cbn [replaced heap isMounted]. auto.
  - cbn. auto.
Qed.

Lemma preserves_objects_alloc (w : World) (l : URLSearchParams.t) (b : bool)
    (calls : list Href) :
  preserves_objects w
    {| heap := <[fresh (dom (heap w)) := l]> (heap w); isMounted := b; replaced := calls |}.
Proof.
  intros r Hr. cbn [heap]. apply lookup_insert_ne. intros Heq. subst r.
  rewrite fresh_not_allocated in Hr. destruct Hr as [x Hx]. discriminate.
Qed.

(** X11.  A pass of either effect, and a call of either setter, never
    changes an object that is already there (the object [searchParams] that
    the router handed out among them), and calls [router.replace] at most
    once. *)
Theorem X11_objects_kept_one_call_at_most (w : World) (path : string) (sp : ref) :
  (forall key options,
     preserves_objects w (exec (UseQueryString.effect key options path sp) w)
     /\ length (new_calls w (exec (UseQueryString.effect key options path sp) w)) <= 1)
  /\ (forall keys options,
        preserves_objects w (exec (UseQueryStrings.effect keys options path sp) w)
        /\ length (new_calls w (exec (UseQueryStrings.effect keys options path sp) w)) <= 1)
  /\ (forall key options value,
        preserves_objects w (exec (UseQueryString.setQueryString key options path sp value) w)
        /\ length (new_calls w
                     (exec (UseQueryString.setQueryString key options path sp value) w)) = 1)
  /\ (forall options key value,
        preserves_objects w (exec (UseQueryStrings.setQueryString options path sp key value) w)
        /\ length (new_calls w
                     (exec (UseQueryStrings.setQueryString options path sp key value) w)) = 1).
Proof.
  assert (Hsame : preserves_objects w w) by (intros r _; reflexivity).
  split; [|split; [|split]].
  - intros key options. unfold exec. rewrite UseQueryString_effect_run. cbn [snd].
    destruct (correction _ (isMounted w) (deref w sp) key).
    + split; [apply preserves_objects_alloc|]. rewrite new_calls_snoc. cbn. lia.
    + split; [exact Hsame|]. rewrite new_calls_none by reflexivity. cbn. lia.
  - intros keys options. unfold exec. rewrite UseQueryStrings_effect_run. cbn [snd].
    destruct (corrections options (isMounted w) (deref w sp) keys).
    + split; [intros r _; reflexivity|]. rewrite new_calls_none by reflexivity. cbn. lia.
    + split; [apply preserves_objects_alloc|]. rewrite new_calls_snoc. cbn. lia.
  - intros key options value. unfold exec.
    rewrite UseQueryString_setQueryString_run. cbn [snd].
    split; [apply preserves_objects_alloc|]. rewrite new_calls_snoc. reflexivity.
  - intros options key value. unfold exec.
    rewrite UseQueryStrings_setQueryString_run. cbn [snd].
    split; [apply preserves_objects_alloc|]. rewrite new_calls_snoc. reflexivity.
Qed.

Lemma X11_objects_kept_one_call_at_most_witness :
  let w := at_location [("q", "")] in
  heap (exec (UseQueryString.effect "q" None "/docs" 0) w) !! 0 = Some [("q", "")].
Proof.
  intros w.
  refine (eq_trans (proj1 (proj1 (X11_objects_kept_one_call_at_most w "/docs" 0) "q" None) 0 _) _).
  - eexists; reflexivity.
  - reflexivity.
Defined.

(** X12.  The setter of [useQueryStrings] for a key does what the setter of
    [useQueryString] does with the options of that key: the same new object
    and the same call of [router.replace].  Neither looks at the mount state
    nor changes it. *)
Theorem X12_setters_agree (options : option (gmap string UseQueryStateOptions))
    (path : string) (sp : ref) (key value : string) (w : World) :
  UseQueryStrings.setQueryString options path sp key value w =
  UseQueryString.setQueryString key (options ≫= (.!! key)) path sp value w
  /\ isMounted (exec (UseQueryStrings.setQueryString options path sp key value) w) = isMounted w
  /\ exec (UseQueryStrings.setQueryString options path sp key value) (with_isMounted true w) =
     with_isMounted true
       (exec (UseQueryStrings.setQueryString options path sp key value) (with_isMounted false w)).
Proof.
  unfold exec.
  rewrite !UseQueryStrings_setQueryString_run, UseQueryString_setQueryString_run.
  cbn [snd isMounted]. auto.
Qed.

(** ** Setting a value and reading it back *)

(** X13.  The setter of [useQueryString] is called with a non-empty value,
    and there is no schema or the schema accepts the value as it is.  Then on
    the location of the call of [router.replace] the hook returns that value
    for its key, and every other key reads as it did before. *)
Theorem X13_set_then_read (key value : string) (options : option UseQueryStateOptions)
    (path : string) (sp sp1 : ref) (w : World) :
  value <> "" ->
  (forall o s, options = Some o -> read (schema o) = Some s ->
     safeParse s value = ParseSuccess value) ->
  deref (exec (UseQueryString.setQueryString key options path sp value) w) sp1 =
    navigate (deref w sp)
      (new_calls w (exec (UseQueryString.setQueryString key options path sp value) w)) ->
  eval (UseQueryString.queryString key sp1)
    (exec (UseQueryString.setQueryString key options path sp value) w) = Some value
  /\ forall other, other <> key ->
       eval (UseQueryString.queryString other sp1)
         (exec (UseQueryString.setQueryString key options path sp value) w) =
       eval (UseQueryString.queryString other sp) w.
Proof.
  intros Hne Hschema. unfold exec, eval, UseQueryString.queryString, sp_get.
  rewrite UseQueryString_setQueryString_run. cbn [fst snd].
  rewrite new_calls_snoc. cbn [navigate foldl search]. intros ->.
  assert (Hset : updated key value options (deref w sp) =
                 URLSearchParams.set (deref w sp) key value).
  { pose proof (proj2 (truthy_true value) Hne) as Ht.
    destruct options as [o|]; unfold updated, updated_tail; rewrite ?Ht; [|reflexivity].
    destruct (read (schema o)) as [s|] eqn:Es.
    - rewrite (Hschema o s eq_refl Es). reflexivity.
    - cbn [negb andb]. reflexivity. }
  rewrite Hset. split; [apply get_set_eq|].
  intros other Hother. apply get_set_ne. congruence.
Qed.

Lemma X13_set_then_read_witness :
  let o := {| defaultValue := Defined "asc"; schema := Defined (z_enum ["asc"; "desc"]);
              onParseError := Absent |} in
  eval (UseQueryString.queryString "sort" 1)
    (exec (UseQueryString.setQueryString "sort" (Some o) "/docs" 0 "desc")
       (at_location [("q", "rocq")])) = Some "desc".
Proof.
  intros o.
  refine (proj1 (X13_set_then_read "sort" "desc" (Some o) "/docs" 0 1
                   (at_location [("q", "rocq")]) _ _ eq_refl)).
  - discriminate.
  - intros o' s [= <-] [= <-]. reflexivity.
Defined.

(** ** After a correction or a set *)

Lemma correction_unconfigured (key : string) (options : option UseQueryStateOptions)
    (mounted : bool) (l : URLSearchParams.t) :
  unconfigured options = true ->
  correction (for_key key options) mounted l key =
  correction (for_key key options) true l key.
Proof.
  unfold correction. rewrite for_key_lookup. destruct options as [o|]; cbn [unconfigured].
  - intros ->. reflexivity.
  - reflexivity.
Qed.

(** X14.  When [settles] holds for the options of its key, a second
    pass of the effect of [useQueryString], on the location the first pass
    left the router at, does nothing: no call of [router.replace] and the
    same world.  This holds although the first pass may leave the mount
    state unset. *)
Theorem X14_useQueryString_second_pass (key : string) (options : option UseQueryStateOptions)
    (path : string) (sp sp1 : ref) (w : World) :
  settles options ->
  deref (exec (UseQueryString.effect key options path sp) w) sp1 =
    navigate (deref w sp)
      (new_calls w (exec (UseQueryString.effect key options path sp) w)) ->
  exec (UseQueryString.effect key options path sp1)
    (exec (UseQueryString.effect key options path sp) w) =
  exec (UseQueryString.effect key options path sp) w.
Proof.
  intros Hs.
  assert (Hw1 : exec (UseQueryString.effect key options path sp) w =
    match correction (for_key key options) (isMounted w) (deref w sp) key with
    | None => w
    | Some u =>
        {| heap := <[fresh (dom (heap w)) := updated key u.2 options (deref w sp)]> (heap w);
           isMounted := if unconfigured options then isMounted w else true;
           replaced := replaced w ++
             [{| pathname := path; search := updated key u.2 options (deref w sp) |}] |}
    end).
  { unfold exec. rewrite UseQueryString_effect_run. reflexivity. }
  rewrite Hw1. clear Hw1.
  destruct (correction (for_key key options) (isMounted w) (deref w sp) key) as [u|] eqn:E.
  - rewrite new_calls_snoc. cbn [navigate foldl search]. intros Hloc.
    unfold exec. rewrite UseQueryString_effect_run. cbn [snd]. fold (for_key key options).
    rewrite Hloc. cbn [isMounted].
    assert (Hnone : correction (for_key key options)
                      (if unconfigured options then isMounted w else true)
                      (updated key u.2 options (deref w sp)) key = None).
    { assert (Hu : correction (for_key key options) true
                     (updated key u.2 options (deref w sp)) key = None).
      { pose proof (correction_after_update (for_key key options) (deref w sp) key u.2) as H.
        rewrite for_key_lookup in H. exact (H Hs). }
      destruct (unconfigured options) eqn:Eu; [|exact Hu].
      rewrite correction_unconfigured by exact Eu. exact Hu. }
    rewrite Hnone. reflexivity.
  - rewrite new_calls_none by reflexivity. cbn [navigate foldl]. intros Hloc.
    unfold exec. rewrite UseQueryString_effect_run. cbn [snd]. fold (for_key key options).
    rewrite Hloc, E. reflexivity.
Qed.

Lemma X14_useQueryString_second_pass_witness :
  let o := {| defaultValue := Defined "10"; schema := Absent; onParseError := Absent |} in
  let w1 := exec (UseQueryString.effect "page" (Some o) "/docs" 0) (at_location []) in
  deref w1 1 = [("page", "10")]
  /\ exec (UseQueryString.effect "page" (Some o) "/docs" 1) w1 = w1.
Proof.
  intros o w1. split; [reflexivity|].
  refine (X14_useQueryString_second_pass "page" (Some o) "/docs" 0 1 (at_location []) _ eq_refl).
  split.
  - intros s Hs. discriminate Hs.
  - reflexivity.
Defined.

(** X15.  With the mount state set, and when [settles] holds for the
    options of the key, the pass that follows a call of the setter of
    [useQueryStrings] has no correction for the key that was set, whatever
    value the setter was given. *)
Theorem X15_no_correction_after_set (keys : list string)
    (options : option (gmap string UseQueryStateOptions)) (path : string)
    (sp sp1 : ref) (key value : string) (w : World) :
  settles (options ≫= (.!! key)) ->
  isMounted w = true ->
  deref (exec (UseQueryStrings.setQueryString options path sp key value) w) sp1 =
    navigate (deref w sp)
      (new_calls w (exec (UseQueryStrings.setQueryString options path sp key value) w)) ->
  key ∉ (eval (UseQueryStrings.getSearchParamsUpdates keys options sp1)
           (exec (UseQueryStrings.setQueryString options path sp key value) w)).*1.
Proof.
  intros Hs Hm. unfold exec, eval. rewrite UseQueryStrings_setQueryString_run. cbn [snd].
  rewrite new_calls_snoc. cbn [navigate foldl search]. intros Hloc.
  rewrite getSearchParamsUpdates_run. cbn [fst isMounted]. rewrite Hloc, Hm.
  intros Hin. apply list_elem_of_fmap in Hin as (u & Hu & Hin).
  apply elem_of_corrections in Hin as [_ Hc]. rewrite <- Hu in Hc.
  rewrite (correction_after_update options (deref w sp) key value Hs) in Hc.
  discriminate Hc.
Qed.

Lemma X15_no_correction_after_set_witness :
  let options : gmap string UseQueryStateOptions :=
    {[ "sort" := {| defaultValue := Defined "asc"; schema := Defined (z_enum ["asc"; "desc"]);
                    onParseError := Absent |} ]} in
  let w := {| heap := {[ 0 := [("sort", "desc")] ]}; isMounted := true; replaced := [] |} in
  "sort" ∉ (eval (UseQueryStrings.getSearchParamsUpdates ["sort"; "q"] (Some options) 1)
              (exec (UseQueryStrings.setQueryString (Some options) "/docs" 0 "sort" "sideways") w)).*1.
Proof.
  intros options w.
  refine (X15_no_correction_after_set ["sort"; "q"] (Some options) "/docs" 0 1
            "sort" "sideways" w _ eq_refl eq_refl).
  split.
  - intros s [= <-] v Hv. destruct v as [|c v]; [discriminate Hv|].
    unfold z_enum in Hv. cbn [safeParse] in Hv.
    destruct (existsb (String.eqb (String c v)) ["asc"; "desc"]); discriminate Hv.
  - reflexivity.
Defined.

(** ** The values a render returns *)

Lemma Object_fromEntries_lookup {A} (f : string -> A) (keys : list string) (k : string) :
  Object_fromEntries (map (fun key => (key, f key)) keys) !! k =
  if decide (k ∈ keys) then Some (f k) else None.
Proof.
  unfold Object_fromEntries.
  induction keys as [|x keys IH] using rev_ind.
  - cbn. rewrite lookup_empty. destruct (decide (k ∈ [])) as [H|_]; [|reflexivity].
    apply elem_of_nil in H. destruct H.
  - rewrite map_app, foldl_app. cbn [map foldl fst snd].
    destruct (decide (x = k)) as [->|Hne].
    + rewrite lookup_insert_eq. rewrite decide_True; [reflexivity|].
      apply elem_of_app. right. apply list_elem_of_singleton. reflexivity.
    + rewrite lookup_insert_ne by exact Hne. rewrite IH.
      destruct (decide (k ∈ keys)) as [Hin|Hnin].
      * rewrite decide_True; [reflexivity|]. apply elem_of_app. left. exact Hin.
      * rewrite decide_False; [reflexivity|]. intros Hin.
        apply elem_of_app in Hin as [Hin|Hin]; [contradiction|].
        apply list_elem_of_singleton in Hin. congruence.
Qed.

(** X16.  The object of values that [useQueryStrings] returns has exactly
    the tracked keys; each holds the first value of the key in the location,
    or [null] when the key is not there.  Building it changes nothing. *)
Theorem X16_queryStrings_lookup (keys : list string) (sp : ref) (w : World) (k : string) :
  exec (UseQueryStrings.queryStrings keys sp) w = w
  /\ eval (UseQueryStrings.queryStrings keys sp) w !! k =
     if decide (k ∈ keys) then Some (eval (sp_get sp k) w) else None.
Proof.
  unfold exec, eval, UseQueryStrings.queryStrings, bind, ret, sp_get. cbn [fst snd].
  split; [reflexivity|].
  apply (Object_fromEntries_lookup (fun key => URLSearchParams.get (deref w sp) key)).
Qed.

(** ** [cx] *)

Lemma append_assoc (a b c : string) : (a +:+ b) +:+ c = a +:+ (b +:+ c).
Proof.
  induction a as [|x a IH]; [reflexivity|].
  change (String x ((a +:+ b) +:+ c) = String x (a +:+ (b +:+ c))). f_equal. exact IH.
Qed.

Lemma append_nil_l (a : string) : "" +:+ a = a.
Proof. reflexivity. Qed.

Lemma append_nil_r (a : string) : a +:+ "" = a.
Proof.
  induction a as [|x a IH]; [reflexivity|].
  change (String x (a +:+ "") = String x a). f_equal. exact IH.
Qed.

Lemma trimEnd_snoc_whitespace (ws : Ascii.ascii -> bool) (s : string) (c : Ascii.ascii) :
  ws c = true -> trimEnd ws (s +:+ String c "") = trimEnd ws s.
Proof.
  intros Hc. induction s as [|x s IH]; simpl.
  - rewrite Hc. reflexivity.
  - rewrite IH. reflexivity.
Qed.

Lemma trimEnd_snoc_visible (ws : Ascii.ascii -> bool) (s : string) (c : Ascii.ascii) :
  ws c = false -> trimEnd ws (s +:+ String c "") = s +:+ String c "".
Proof.
  intros Hc. induction s as [|x s IH]; simpl.
  - rewrite Hc. reflexivity.
  - rewrite IH. destruct s; reflexivity.
Qed.

(** The string [cx] has built when its loops end: every name, each followed
    by one space. *)
Lemma cx_entries_names (entries : list (string * bool)) (result : string) :
  cx_entries entries result =
  result +:+ String.concat "" (map (fun n => n +:+ " ") (List.filter (fun e => e.2) entries).*1).
Proof.
  unfold cx_entries. revert result.
  induction entries as [|[k [|]] entries IH]; intros result; cbn.
  - symmetry. apply append_nil_r.
  - rewrite IH. cbn. rewrite !append_assoc.
    destruct (map _ _); cbn; rewrite ?append_nil_r; reflexivity.
  - apply IH.
Qed.

Lemma concat_cons (a : string) (l : list string) :
  String.concat "" (a :: l) = a +:+ String.concat "" l.
Proof. destruct l; cbn; [rewrite append_nil_r|]; reflexivity. Qed.

Lemma concat_cons_cons (sep x y : string) (l : list string) :
  String.concat sep (x :: y :: l) = x +:+ sep +:+ String.concat sep (y :: l).
Proof. reflexivity. Qed.

Lemma concat_names_app (xs ys : list string) :
  String.concat "" (map (fun n => n +:+ " ") (xs ++ ys)) =
  String.concat "" (map (fun n => n +:+ " ") xs)
  +:+ String.concat "" (map (fun n => n +:+ " ") ys).
Proof.
  induction xs as [|x xs IH]; [reflexivity|].
  change ((x :: xs) ++ ys) with (x :: (xs ++ ys)).
  cbn [map]. rewrite !concat_cons, IH, !append_assoc. reflexivity.
Qed.

Lemma cx_loop_names (inputs : list ClassValue) (result : string) :
  foldl cx_step result inputs =
  result +:+ String.concat "" (map (fun n => n +:+ " ") (inputs ≫= class_names)).
Proof.
  revert result. induction inputs as [|input inputs IH]; intros result.
  - cbn. symmetry. apply append_nil_r.
  - cbn [foldl]. rewrite IH.
    change ((input :: inputs) ≫= class_names)
      with (class_names input ++ (inputs ≫= class_names)).
    rewrite concat_names_app, <- append_assoc. f_equal.
    destruct input as [s|entries|b| |]; cbn [cx_step class_names];
      rewrite ?append_nil_r; try reflexivity.
    + destruct (truthy s); cbn; rewrite ?append_nil_r, ?append_assoc; reflexivity.
    + apply cx_entries_names.
Qed.

Lemma concat_names_snoc (ns : list string) (n : string) :
  String.concat "" (map (fun n => n +:+ " ") (ns ++ [n])) =
  String.concat " " (ns ++ [n]) +:+ " ".
Proof.
  induction ns as [|x ns IH]; [cbn; reflexivity|].
  change ((x :: ns) ++ [n]) with (x :: (ns ++ [n])). cbn [map].
  rewrite concat_cons, IH.
  destruct (ns ++ [n]) as [|y l] eqn:E.
  - destruct ns; discriminate E.
  - rewrite concat_cons_cons, !append_assoc. reflexivity.
Qed.

Lemma concat_ends_visibly (ws : Ascii.ascii -> bool) (ns : list string) (n : string) :
  ends_visibly ws n -> ends_visibly ws (String.concat " " (ns ++ [n])).
Proof.
  intros (body & c & -> & Hc). induction ns as [|x ns IH].
  - exists body, c. split; [reflexivity | exact Hc].
  - change ((x :: ns) ++ [body +:+ String c ""]) with (x :: (ns ++ [body +:+ String c ""])).
    destruct IH as (body' & c' & Hb & Hc').
    destruct (ns ++ [body +:+ String c ""]) as [|y l] eqn:E.
    + destruct ns; discriminate E.
    + rewrite concat_cons_cons, Hb. exists (x +:+ " " +:+ body'), c'.
      split; [|exact Hc']. rewrite !append_assoc. reflexivity.
Qed.

(** X17.  When the last name that counts is not empty and does not end in
    white space, [cx] returns the names that count (the non-empty strings,
    and the keys of the records that have a true value, in the order of the
    arguments), with one space between two names and nothing after the
    last. *)
Theorem X17_cx_joins_names (isWhiteSpace : Ascii.ascii -> bool) (inputs : list ClassValue)
    (names : list string) (name : string) :
  isWhiteSpace Ascii.Space = true ->
  inputs ≫= class_names = names ++ [name] ->
  ends_visibly isWhiteSpace name ->
  cx isWhiteSpace inputs = String.concat " " (names ++ [name]).
Proof.
  intros Hsp Hnames Hlast. unfold cx.
  rewrite cx_loop_names, Hnames, append_nil_l, concat_names_snoc.
  unfold Ascii.Space in Hsp.
  rewrite (trimEnd_snoc_whitespace isWhiteSpace _ _ Hsp).
  destruct (concat_ends_visibly isWhiteSpace names name Hlast) as (body & c & -> & Hc).
  apply trimEnd_snoc_visible. exact Hc.
Qed.

Lemma X17_cx_joins_names_witness :
  cx latin1_whitespace
    [ClassString "btn"; ClassBoolean false; ClassString "";
     ClassRecord [("active", true); ("hidden", false); ("wide", true)]; ClassNull]
  = "btn active wide".
Proof.
  apply (X17_cx_joins_names latin1_whitespace _ ["btn"; "active"] "wide").
  - reflexivity.
  - reflexivity.
  - exists "wid", (Ascii.ascii_of_nat 101). split; reflexivity.
Defined.

(** X18.  Inputs that stand for no name ([false], [true], [null],
    [undefined], the empty string, a record without a true value) do not
    show in the result of [cx]: with only such inputs it is the empty
    string, for any table of white space. *)
Theorem X18_cx_nothing_to_name (isWhiteSpace : Ascii.ascii -> bool) (inputs : list ClassValue) :
  (forall input, input ∈ inputs -> class_names input = []) ->
  cx isWhiteSpace inputs = "".
Proof.
  intros Hnone. unfold cx. rewrite cx_loop_names.
  assert (Hn : inputs ≫= class_names = []).
  { induction inputs as [|input inputs IH]; [reflexivity|].
    change ((input :: inputs) ≫= class_names)
      with (class_names input ++ (inputs ≫= class_names)).
    rewrite (Hnone input) by (apply elem_of_cons; left; reflexivity).
    apply IH. intros i Hi. apply Hnone. apply elem_of_cons. right. exact Hi. }
  rewrite Hn. reflexivity.
Qed.

Lemma X18_cx_nothing_to_name_witness :
  cx latin1_whitespace
    [ClassBoolean true; ClassUndefined; ClassRecord [("hidden", false)]; ClassString ""] = "".
Proof.
  apply X18_cx_nothing_to_name. intros input Hin.
  repeat (apply elem_of_cons in Hin as [->|Hin]; [reflexivity|]).
  apply elem_of_nil in Hin. destruct Hin.
Defined.
